(** * models.py: world model and imagination behaviour of the Dreamer agent

    A shallow embedding of [src/models.py] and the properties of its
    numeric transforms, reward normaliser, world-model loss, imagination
    rollout, lambda-return targets and slow-target update.

    Conventions of the embedding.
    - Floating point numbers are real numbers: every statement below is
      about exact arithmetic.
    - A tensor is the list of its entries together with its
      [requires_grad] flag.  For the sequences of the behaviour
      (reward, value, discount, weights, of shape (time, batch, 1)) the
      list runs along the leading time axis for one batch element; for
      [RewardEMA] and [preprocess] it is the flattened tensor.  Shape
      errors of torch are outside the model: element-wise operations pair
      entries by position.
    - A Python exception is a value of [Py.exn]; code that may raise
      returns a [Py.result].
    - The networks, the recurrent state-space model and the optimisers
      live in [networks.py] and [tools.py]; they enter as records of
      functions. *)

From Stdlib Require Import String.
From Stdlib Require Import Reals Lra Lia List ZArith Bool DecimalString Sorted.
Import ListNotations.

Open Scope string_scope.
Open Scope list_scope.
Open Scope R_scope.

(* ------------------------------------------------------------------ *)
(** * Python exceptions *)

Module Py.

Inductive exn : Type :=
| TypeError (msg : string)
| UnboundLocalError (name : string)
| ZeroDivisionError (msg : string)
| KeyError (key : string)
| IndexError (msg : string)
| RuntimeError (msg : string)
| NotImplementedError (msg : string).

Inductive result (A : Type) : Type :=
| Ok (a : A)
| Raise (e : exn).

Arguments Ok {A} a.
Arguments Raise {A} e.

Definition bind {A B : Type} (m : result A) (k : A -> result B) : result B :=
  match m with
  | Ok a => k a
  | Raise e => Raise e
  end.

Definition raised {A : Type} (m : result A) : bool :=
  match m with
  | Ok _ => false
  | Raise _ => true
  end.

(** [NotImplemented] is the constant that binary special methods return;
    it is not an exception class and not callable.  The expression
    [NotImplemented(msg)] evaluates [msg] and then fails in the call. *)
Definition NotImplemented (msg : string) : exn :=
  TypeError "'NotImplementedType' object is not callable".

(** Truth value of an optional integer argument ([if repeats:]). *)
Definition truthy (v : option Z) : bool :=
  match v with
  | None => false
  | Some z => negb (Z.eqb z 0)
  end.

End Py.

Import Py.

Notation "x <- m ;; k" := (Py.bind m (fun x => k))
  (at level 61, m at next level, right associativity).

(* ------------------------------------------------------------------ *)
(** * Tensors *)

Module Torch.

Record Tensor : Type := mkTensor {
  data : list R;
  requires_grad : bool
}.

(** [torch.Tensor(array)]: a fresh leaf holding the array. *)
Definition of_array (l : list R) : Tensor := mkTensor l false.

Definition detach (x : Tensor) : Tensor := mkTensor (data x) false.

Definition tmap (f : R -> R) (x : Tensor) : Tensor :=
  mkTensor (map f (data x)) (requires_grad x).

Fixpoint zip_with (f : R -> R -> R) (l1 l2 : list R) : list R :=
  match l1, l2 with
  | a :: l1', b :: l2' => f a b :: zip_with f l1' l2'
  | _, _ => []
  end.

Definition tmap2 (f : R -> R -> R) (x y : Tensor) : Tensor :=
  mkTensor (zip_with f (data x) (data y))
           (requires_grad x || requires_grad y).

Definition add (x y : Tensor) : Tensor := tmap2 Rplus x y.
Definition scale_by (c : R) (x : Tensor) : Tensor := tmap (Rmult c) x.

Definition ones_like (x : Tensor) : Tensor :=
  mkTensor (map (fun _ => 1) (data x)) false.

(** [x[:-1]], [x[:1]] and [x[-1]] along the leading axis. *)
Definition drop_last (x : Tensor) : Tensor :=
  mkTensor (removelast (data x)) (requires_grad x).

Definition first_one (x : Tensor) : Tensor :=
  mkTensor (firstn 1 (data x)) (requires_grad x).

Definition last_entry (x : Tensor) : result R :=
  match data x with
  | [] => Raise (IndexError "index -1 is out of bounds for dimension 0 with size 0")
  | a :: l => Ok (last l a)
  end.

(** [torch.cat([x, y], 0)]. *)
Definition cat (x y : Tensor) : Tensor :=
  mkTensor (data x ++ data y) (requires_grad x || requires_grad y).

Fixpoint cumprod_from (acc : R) (l : list R) : list R :=
  match l with
  | [] => []
  | a :: l' => (acc * a) :: cumprod_from (acc * a) l'
  end.

(** [torch.cumprod(x, 0)]. *)
Definition cumprod (x : Tensor) : Tensor :=
  mkTensor (cumprod_from 1 (data x)) (requires_grad x).

Definition sum (l : list R) : R := fold_left Rplus l 0.

Definition product (l : list R) : R := fold_right Rmult 1 l.

(** [torch.mean(x)]. *)
Definition mean (x : Tensor) : R := sum (data x) / INR (length (data x)).

(** [torch.sign]: -1, 0 or 1. *)
Definition sign (x : R) : R :=
  if Rlt_dec 0 x then 1 else if Rlt_dec x 0 then -1 else 0.

(** [torch.clip(x, min=m)]. *)
Definition clip_min (m x : R) : R := Rmax x m.

(** Insertion sort, the order [torch.quantile] puts its input in. *)
Fixpoint insert (a : R) (l : list R) : list R :=
  match l with
  | [] => [a]
  | b :: l' => if Rle_dec a b then a :: l else b :: insert a l'
  end.

Fixpoint sort (l : list R) : list R :=
  match l with
  | [] => []
  | a :: l' => insert a (sort l')
  end.

Definition floor (r : R) : Z := Int_part r.
Definition ceil (r : R) : Z := (- Int_part (- r))%Z.

(** [torch.quantile(input, q)] with the default linear interpolation,
    on a flat input: position [q * (n - 1)] of the sorted entries,
    interpolated between its two neighbours. *)
Definition quantile (input : list R) (q : R) : result R :=
  match input with
  | [] => Raise (RuntimeError "quantile() input tensor must be non-empty")
  | _ :: _ =>
      let sorted := sort input in
      let rank := q * INR (length input - 1) in
      let below := nth (Z.to_nat (floor rank)) sorted 0 in
      let above := nth (Z.to_nat (ceil rank)) sorted 0 in
      let weight := rank - IZR (floor rank) in
      Ok (below + weight * (above - below))
  end.

End Torch.

Import Torch.

(* ------------------------------------------------------------------ *)
(** * symlog and symexp *)

Definition symlog (x : R) : R := sign x * ln (Rabs x + 1).

Definition symexp (x : R) : R := sign x * (exp (Rabs x) - 1).

(* ------------------------------------------------------------------ *)
(** * RewardEMA *)

Module RewardEMA.

Record t : Type := mk {
  scale : R;
  alpha : R;
  range : R * R
}.

(** [RewardEMA(device, alpha=1e-2)]. *)
Definition __init__ (alpha : R) : t := mk 0 alpha (5 / 100, 95 / 100).

Definition default_alpha : R := 1 / 100.

(** The spread [x_quantile[1] - x_quantile[0]] of one input. *)
Definition spread (self : t) (x : Tensor) : result R :=
  let flat_x := data (detach x) in
  q0 <- quantile flat_x (fst (range self)) ;;
  q1 <- quantile flat_x (snd (range self)) ;;
  Ok (q1 - q0).

(** [self(x)]: the updated object and the returned tensor. *)
Definition __call__ (self : t) (x : Tensor) : result (t * Tensor) :=
  scale0 <- spread self x ;;
  let new_scale := alpha self * scale0 + (1 - alpha self) * scale self in
  let self' := mk new_scale (alpha self) (range self) in
  Ok (self', tmap (fun v => v / clip_min 1 (scale self')) x).

(** The object after feeding the first [n] inputs of a stream; a call
    that raises leaves the object as it was. *)
Fixpoint run (self : t) (xs : nat -> Tensor) (n : nat) : t :=
  match n with
  | O => self
  | S n' =>
      let self' := run self xs n' in
      match __call__ self' (xs n') with
      | Ok (self'', _) => self''
      | Raise _ => self'
      end
  end.

End RewardEMA.

(* ------------------------------------------------------------------ *)
(** * tools.py *)

Module Tools.

(** Modelled from the spec: [tools.static_scan], which is not part of
    [models.py].  The spec describes it as the generic fixed-length
    recurrent scan: an explicit loop over the inputs that feeds the
    previous result and the current input to [fn] and accumulates every
    result, one per input.  [fn] may draw random numbers, so the
    generator state [g] is threaded through the loop. *)
Fixpoint static_scan {C I G : Type} (fn : C -> I -> G -> C * G)
    (inputs : list I) (start : C) (g : G) : list C * G :=
  match inputs with
  | [] => ([], g)
  | i :: inputs' =>
      let '(last, g1) := fn start i g in
      let '(outputs, g2) := static_scan fn inputs' last g1 in
      (last :: outputs, g2)
  end.

(** Modelled from the spec: [tools.lambda_return], which is not part of
    [models.py].  The spec gives the backward recursion
    [return[t] = reward[t] + discount[t] * ((1 - lambda) * value[t+1]
    + lambda * return[t+1])] with the bootstrap value after the last
    step, processed from the last time step to the first; the value
    after the last step is the bootstrap as well.  It returns the list
    of the per-step returns. *)
Fixpoint lambda_return (reward value pcont : list R) (bootstrap lambda_ : R)
    : list R :=
  match reward, value, pcont with
  | r :: reward', _ :: value', d :: pcont' =>
      let returns := lambda_return reward' value' pcont' bootstrap lambda_ in
      let next_value := hd bootstrap value' in
      let next_return := hd bootstrap returns in
      (r + d * ((1 - lambda_) * next_value + lambda_ * next_return)) :: returns
  | _, _, _ => []
  end.

End Tools.

(* ------------------------------------------------------------------ *)
(** * Dictionaries with string keys, in insertion order *)

Fixpoint dict_get {A : Type} (d : list (string * A)) (key : string)
    (default : A) : A :=
  match d with
  | [] => default
  | (k, v) :: d' => if (k =? key)%string then v else dict_get d' key default
  end.

Definition dict_values {A : Type} (d : list (string * A)) : list A :=
  map snd d.

(* ------------------------------------------------------------------ *)
(** * WorldModel *)

Module WorldModel.

(** The options of [config] that [WorldModel] reads.  [Sched] is the type
    of the schedule descriptions that [tools.schedule] interprets. *)
Record Config (Sched : Type) : Type := {
  obs_trans : string;
  reward_trans : string;
  discount : R;
  pred_discount : bool;
  grad_heads : list string;
  reward_scale : R;
  discount_scale : R;
  kl_forward : bool;
  kl_free : Sched;
  kl_lscale : Sched;
  kl_rscale : Sched
}.

Arguments obs_trans {Sched} _.
Arguments reward_trans {Sched} _.
Arguments discount {Sched} _.
Arguments pred_discount {Sched} _.
Arguments grad_heads {Sched} _.
Arguments reward_scale {Sched} _.
Arguments discount_scale {Sched} _.
Arguments kl_forward {Sched} _.
Arguments kl_free {Sched} _.
Arguments kl_lscale {Sched} _.
Arguments kl_rscale {Sched} _.

(** A raw trajectory batch: a dictionary of arrays with the keys
    [action], [image], [reward] and, optionally, [discount]. *)
Record Obs : Type := {
  obs_action : list R;
  obs_image : list R;
  obs_reward : list R;
  obs_discount : option (list R)
}.

(** The preprocessed batch: the same keys, holding tensors. *)
Record Data : Type := {
  action : Tensor;
  image : Tensor;
  reward : Tensor;
  discount_entry : option Tensor
}.

(** [data[name]]. *)
Definition getitem (data : Data) (name : string) : result Tensor :=
  if (name =? "action")%string then Ok (action data)
  else if (name =? "image")%string then Ok (image data)
  else if (name =? "reward")%string then Ok (reward data)
  else if (name =? "discount")%string then
    match discount_entry data with
    | Some d => Ok d
    | None => Raise (KeyError name)
    end
  else Raise (KeyError name).

(** A predicted distribution, as the heads return it. *)
Record Dist : Type := {
  log_prob : Tensor -> Tensor;
  mode : Tensor;
  dist_mean : Tensor;
  entropy : Tensor
}.

(** The collaborators of the world model: encoder, recurrent state-space
    model, heads and [tools.schedule], together with the indexing of
    shaped tensors that [video_pred] performs. *)
Record Nets (Sched Latent : Type) : Type := {
  encoder : Data -> Tensor;
  observe : Tensor -> Tensor -> Latent * Latent;
  imagine : Tensor -> Latent -> Latent;
  get_feat : Latent -> Tensor;
  get_dist_entropy : Latent -> Tensor;
  kl_loss : Latent -> Latent -> bool -> R -> R -> R -> R * Tensor * R * R;
  image_head : Tensor -> Dist;
  reward_head : Tensor -> Dist;
  discount_head : Tensor -> Dist;
  schedule : Sched -> Z -> R;
  (* x[:6], x[:6, :5], x[:6, 5:], x[:, :5], {k: v[:, -1]} *)
  take6 : Tensor -> Tensor;
  take6_until5 : Tensor -> Tensor;
  take6_from5 : Tensor -> Tensor;
  until5 : Tensor -> Tensor;
  last_step : Latent -> Latent;
  (* torch.cat(_, 1) and torch.cat(_, 2) *)
  cat1 : list Tensor -> Tensor;
  cat2 : list Tensor -> Tensor
}.

Arguments encoder {Sched Latent} _.
Arguments observe {Sched Latent} _.
Arguments imagine {Sched Latent} _.
Arguments get_feat {Sched Latent} _.
Arguments get_dist_entropy {Sched Latent} _.
Arguments kl_loss {Sched Latent} _.
Arguments image_head {Sched Latent} _.
Arguments reward_head {Sched Latent} _.
Arguments discount_head {Sched Latent} _.
Arguments schedule {Sched Latent} _.
Arguments take6 {Sched Latent} _.
Arguments take6_until5 {Sched Latent} _.
Arguments take6_from5 {Sched Latent} _.
Arguments until5 {Sched Latent} _.
Arguments last_step {Sched Latent} _.
Arguments cat1 {Sched Latent} _.
Arguments cat2 {Sched Latent} _.

Section Model.

Context {Sched Latent : Type}.
Variable config : Config Sched.
Variable nets : Nets Sched Latent.

(** [self.heads], in the order [__init__] fills it. *)
Definition heads : list (string * (Tensor -> Dist)) :=
  [("image", image_head nets); ("reward", reward_head nets)]
  ++ (if pred_discount config then [("discount", discount_head nets)] else []).

(** [self._scales]. *)
Definition _scales : list (string * R) :=
  [("reward", reward_scale config); ("discount", discount_scale config)].

Definition preprocess (obs : Obs) : result Data :=
  image <-
    (if (obs_trans config =? "normalize")%string then
       Ok (tmap (fun v => v / 255 - 5 / 10) (of_array (obs_image obs)))
     else if (obs_trans config =? "identity")%string then
       Ok (of_array (obs_image obs))
     else if (obs_trans config =? "symlog")%string then
       Ok (tmap symlog (of_array (obs_image obs)))
     else
       Raise (NotImplemented
                (reward_trans config ++ " is not implemented")%string)) ;;
  reward <-
    (if (reward_trans config =? "tanh")%string then
       Ok (tmap tanh (of_array (obs_reward obs)))
     else if (reward_trans config =? "identity")%string then
       Ok (of_array (obs_reward obs))
     else if (reward_trans config =? "symlog")%string then
       Ok (tmap symlog (of_array (obs_reward obs)))
     else
       Raise (NotImplemented
                (reward_trans config ++ " is not implemented")%string)) ;;
  let discount_entry :=
    match obs_discount obs with
    | Some d => Some (of_array (map (fun v => v * discount config) d))
    | None => None
    end in
  Ok {| action := of_array (obs_action obs);
        image := image;
        reward := reward;
        discount_entry := discount_entry |}.

(** The loop over [self.heads.items()] of [_train]: the dictionary
    [losses]. *)
Fixpoint head_losses (data : Data) (post : Latent)
    (hs : list (string * (Tensor -> Dist))) : result (list (string * R)) :=
  match hs with
  | [] => Ok []
  | (name, head) :: hs' =>
      let grad_head := existsb (String.eqb name) (grad_heads config) in
      let feat := get_feat nets post in
      let feat := if grad_head then feat else detach feat in
      let pred := head feat in
      target <- getitem data name ;;
      let like := log_prob pred target in
      let loss := - mean like * dict_get _scales name 1 in
      losses <- head_losses data post hs' ;;
      Ok ((name, loss) :: losses)
  end.

(** What [_train] computes up to the optimiser step: the loss it hands
    to [self._model_opt], the per-head losses it reports, and the
    detached posterior it returns. *)
Record TrainStep : Type := {
  model_loss : R;
  losses : list (string * R);
  kl_loss_value : R;
  post : Latent
}.

Definition _train (step : Z) (data : Obs) : result TrainStep :=
  data <- preprocess data ;;
  let embed := encoder nets data in
  let '(post, prior) := observe nets embed (action data) in
  let kl_free := schedule nets (kl_free config) step in
  let kl_lscale := schedule nets (kl_lscale config) step in
  let kl_rscale := schedule nets (kl_rscale config) step in
  let '(kl_loss, kl_value, loss_lhs, loss_rhs) :=
    kl_loss nets post prior (kl_forward config) kl_free kl_lscale kl_rscale in
  losses <- head_losses data post heads ;;
  let model_loss := sum (dict_values losses) + kl_loss in
  Ok {| model_loss := model_loss;
        losses := losses;
        kl_loss_value := kl_loss;
        post := post |}.

Definition video_pred (data : Obs) : result Tensor :=
  data <- preprocess data ;;
  let embed := encoder nets data in
  let '(states, _) :=
    observe nets (take6_until5 nets embed) (take6_until5 nets (action data)) in
  let recon := take6 nets (mode (image_head nets (get_feat nets states))) in
  let reward_post :=
    take6 nets (mode (reward_head nets (get_feat nets states))) in
  let init := last_step nets states in
  let prior := imagine nets (take6_from5 nets (action data)) init in
  let openl := mode (image_head nets (get_feat nets prior)) in
  let reward_prior := mode (reward_head nets (get_feat nets prior)) in
  let model := cat1 nets [until5 nets recon; openl] in
  (* the local variables [truth] and [model] after the conditional *)
  let '(truth, model) :=
    if (obs_trans config =? "normalize")%string then
      (Some (tmap (fun v => v + 5 / 10) (take6 nets (image data))),
       tmap (fun v => v + 5 / 10) model)
    else if (obs_trans config =? "symlog")%string then
      (Some (tmap (fun v => symexp v / 255) (take6 nets (image data))),
       tmap (fun v => symexp v / 255) model)
    else (None, model) in
  truth <-
    match truth with
    | Some t => Ok t
    | None => Raise (UnboundLocalError "truth")
    end ;;
  let error := tmap (fun v => (v + 1) / 2) (tmap2 Rminus model truth) in
  Ok (cat2 nets [truth; model; error]).

End Model.

End WorldModel.

(* ------------------------------------------------------------------ *)
(** * ImagBehavior *)

Module ImagBehavior.

(** The options of [config] that [ImagBehavior] reads.  The entropy
    coefficients are schedules, called as [config.actor_entropy()]; the
    fields hold the value of that call at the current step. *)
Record Config : Type := {
  imag_horizon : nat;
  imag_sample : bool;
  discount : R;
  discount_lambda : R;
  future_entropy : bool;
  actor_entropy : R;
  actor_state_entropy : R;
  critic_trans : string;
  slow_value_target : bool;
  slow_actor_target : bool;
  slow_target_update : Z;
  slow_target_fraction : R
}.

(** The parameters of a network: a list of tensors. *)
Definition Params : Type := list (list R).

(** Two parameter lists hold tensors of the same sizes, as a network and
    its deep copy do. *)
Definition same_shape (live slow : Params) : Prop :=
  Forall2 (fun s d => length s = length d) live slow.

(** The mutable attributes of the object: the parameters of the critic
    [self.value] and of its copy [self._slow_value], and the counter
    [self._updates]. *)
Record t : Type := {
  value : Params;
  _slow_value : Params;
  _updates : Z;
  _stop_grad_actor : bool
}.

(** [copy.deepcopy(self.value)] and [self._updates = 0] of [__init__]. *)
Definition __init__ (value : Params) (stop_grad_actor : bool) : t :=
  {| value := value;
     _slow_value := value;
     _updates := 0;
     _stop_grad_actor := stop_grad_actor |}.

(** The distribution over actions that the policy returns. *)
Record ActionDist (Action Rng : Type) : Type := {
  sample : Rng -> Action * Rng;
  mode : Action
}.

Arguments sample {Action Rng} _.
Arguments mode {Action Rng} _.

(** The part of [world_model.dynamics] that the behaviour uses.  A state
    is the dictionary of the latent tensors; [flatten] merges its batch
    and time axes, [zero_feat] is [0 * feat], [detach_feat] is
    [feat.detach()]. *)
Record Dynamics (State Feat Action Rng : Type) : Type := {
  get_feat : State -> Feat;
  img_step : State -> Action -> bool -> Rng -> State * Rng;
  flatten : State -> State;
  zero_feat : Feat -> Feat;
  detach_feat : Feat -> Feat
}.

Arguments get_feat {State Feat Action Rng} _.
Arguments img_step {State Feat Action Rng} _.
Arguments flatten {State Feat Action Rng} _.
Arguments zero_feat {State Feat Action Rng} _.
Arguments detach_feat {State Feat Action Rng} _.

(** The heads that [_compute_target] evaluates on a stacked sequence of
    features: the critic as a function of its parameters, and the
    discount head of the world model when it has one
    ([heads["discount"](inp).mean]). *)
Record Heads (Feat : Type) : Type := {
  value_mode : Params -> list Feat -> Tensor;
  discount_mean : option (list Feat -> Tensor)
}.

Arguments value_mode {Feat} _.
Arguments discount_mean {Feat} _.

Section Model.

Context {State Feat Action Rng : Type}.
Variable config : Config.
Variable dynamics : Dynamics State Feat Action Rng.
Variable heads : Heads Feat.

(** The closure [step] of [_imagine]. *)
Definition step (self : t) (policy : Feat -> ActionDist Action Rng)
    (prev : State * Feat * Action) (_ : nat) (g : Rng)
    : (State * Feat * Action) * Rng :=
  let '(state, _, _) := prev in
  let feat := get_feat dynamics state in
  let inp := if _stop_grad_actor self then detach_feat dynamics feat else feat in
  let '(action, g1) := sample (policy inp) g in
  let '(succ, g2) := img_step dynamics state action (imag_sample config) g1 in
  ((succ, feat, action), g2).

Definition _imagine (self : t) (start : State)
    (policy : Feat -> ActionDist Action Rng) (horizon : nat)
    (repeats : option Z) (g : Rng)
    : result ((list Feat * list State * list Action) * Rng) :=
  if truthy repeats then
    Raise (NotImplemented "repeats is not implemented in this version")
  else
    let start := flatten dynamics start in
    let feat := zero_feat dynamics (get_feat dynamics start) in
    let action := mode (policy feat) in
    let '(outputs, g') :=
      Tools.static_scan (step self policy) (seq 0 horizon)
                        (start, feat, action) g in
    let succ := map (fun o => fst (fst o)) outputs in
    let feats := map (fun o => snd (fst o)) outputs in
    let actions := map (fun o => snd o) outputs in
    let states := start :: removelast succ in
    if truthy repeats then
      Raise (NotImplemented "repeats is not implemented in this version")
    else Ok ((feats, states, actions), g').

(** The local variables [discount], [reward] and [value] of
    [_compute_target], as they stand before the call of
    [tools.lambda_return].  The bonuses are added with [reward += ...],
    which updates the tensor of the caller in place: [target_reward] is
    also what the caller holds after the call ([InPlace._compute_target]
    below pairs it with the result). *)
Definition target_discount (imag_state : list State) (reward : Tensor)
    : Tensor :=
  match discount_mean heads with
  | Some head => head (map (get_feat dynamics) imag_state)
  | None => scale_by (discount config) (ones_like reward)
  end.

Definition target_reward (reward actor_ent state_ent : Tensor) : Tensor :=
  let reward :=
    if future_entropy config
       && (if Rlt_dec 0 (actor_entropy config) then true else false)
    then add reward (scale_by (actor_entropy config) actor_ent)
    else reward in
  if future_entropy config
     && (if Rlt_dec 0 (actor_state_entropy config) then true else false)
  then add reward (scale_by (actor_state_entropy config) state_ent)
  else reward.

Definition target_value (self : t) (imag_feat : list Feat) (slow : bool)
    : Tensor :=
  let value :=
    if slow then value_mode heads (_slow_value self) imag_feat
    else value_mode heads (value self) imag_feat in
  if (critic_trans config =? "symlog")%string then tmap symexp value
  else value.

Definition _compute_target (self : t) (imag_feat : list Feat)
    (imag_state : list State) (imag_action : list Action)
    (reward actor_ent state_ent : Tensor) (slow : bool)
    : result (list R * Tensor) :=
  let discount := target_discount imag_state reward in
  let reward := target_reward reward actor_ent state_ent in
  let value := target_value self imag_feat slow in
  bootstrap <- last_entry value ;;
  let target :=
    Tools.lambda_return (data (drop_last reward)) (data (drop_last value))
                        (data (drop_last discount)) bootstrap
                        (discount_lambda config) in
  let weights :=
    detach (cumprod (cat (ones_like (first_one discount)) (drop_last discount))) in
  Ok (target, weights).

(** [d.data = mix * s.data + (1 - mix) * d.data] for the pairs of
    [zip(self.value.parameters(), self._slow_value.parameters())]; slow
    parameters beyond the pairs are not assigned. *)
Fixpoint mix_parameters (mix : R) (live slow : Params) : Params :=
  match live, slow with
  | s :: live', d :: slow' =>
      zip_with (fun sv dv => mix * sv + (1 - mix) * dv) s d
      :: mix_parameters mix live' slow'
  | _, _ => slow
  end.

Definition _update_slow_target (self : t) : result t :=
  if slow_value_target config || slow_actor_target config then
    if (slow_target_update config =? 0)%Z then
      Raise (ZeroDivisionError "integer division or modulo by zero")
    else
      let slow :=
        if (_updates self mod slow_target_update config =? 0)%Z then
          let mix := slow_target_fraction config in
          mix_parameters mix (value self) (_slow_value self)
        else _slow_value self in
      Ok {| value := value self;
            _slow_value := slow;
            _updates := (_updates self + 1)%Z;
            _stop_grad_actor := _stop_grad_actor self |}
  else Ok self.

(** [n] calls of [_update_slow_target] in a row. *)
Fixpoint update_slow_target_times (n : nat) (self : t) : result t :=
  match n with
  | O => Ok self
  | S n' =>
      self' <- update_slow_target_times n' self ;;
      _update_slow_target self'
  end.

End Model.

End ImagBehavior.

(* ------------------------------------------------------------------ *)
(** * WorldModel.__init__

    The part of the constructor that depends on the options only: the
    check of the observation size, the size of the embedding, the keys of
    [self.heads], the check of [grad_heads], and [self._scales].  The
    networks it builds are outside the model. *)

Module WorldModelInit.

(** What the constructor can raise: an exception of [Py.exn], or the
    [AssertionError] of [assert name in self.heads, name]. *)
Inductive error : Type :=
| Exn (e : Py.exn)
| AssertionError (name : string).

Record Config : Type := {
  size : Z * Z;
  encoder_kernels : list Z;
  cnn_depth : Z;
  grayscale : bool;
  dyn_stoch : Z;
  dyn_discrete : Z;
  dyn_deter : Z;
  pred_discount : bool;
  grad_heads : list string;
  reward_scale : R;
  discount_scale : R
}.

(** The attributes the constructor computes from the options. *)
Record t : Type := {
  embed_size : R;
  shape : Z * (Z * Z);
  feat_size : Z;
  heads : list string;
  _scales : list (string * R)
}.

Inductive outcome : Type :=
| Built (self : t)
| Failed (e : error).

(** [str(n)] of an integer and of a pair of integers. *)
Definition str (n : Z) : string := NilZero.string_of_int (Z.to_int n).

Definition str_pair (p : Z * Z) : string :=
  ("(" ++ str (fst p) ++ ", " ++ str (snd p) ++ ")")%string.

(** [(64 // 2 ** len(kernels)) ** 2 * cnn_depth * 2 ** (len(kernels) - 1)];
    the last power has a negative exponent, and a fractional value, when
    there are no kernels. *)
Definition embed_size_of (config : Config) : R :=
  let k := Z.of_nat (length (encoder_kernels config)) in
  IZR ((64 / 2 ^ k) ^ 2 * cnn_depth config) * powerRZ 2 (k - 1).

Definition feat_size_of (config : Config) : Z :=
  if (dyn_discrete config =? 0)%Z
  then (dyn_stoch config + dyn_deter config)%Z
  else (dyn_stoch config * dyn_discrete config + dyn_deter config)%Z.

Definition heads_of (config : Config) : list string :=
  ["image"; "reward"] ++ (if pred_discount config then ["discount"] else []).

(** The loop [for name in config.grad_heads: assert name in self.heads]:
    the first name that is not a head, if any. *)
Fixpoint check_grad_heads (names heads : list string) : option string :=
  match names with
  | [] => None
  | name :: names' =>
      if existsb (String.eqb name) heads then check_grad_heads names' heads
      else Some name
  end.

Definition __init__ (config : Config) : outcome :=
  if ((fst (size config) =? 64) && (snd (size config) =? 64))%Z then
    let embed_size := embed_size_of config in
    let channels := if grayscale config then 1%Z else 3%Z in
    let shape := (channels, size config) in
    let feat_size := feat_size_of config in
    let heads := heads_of config in
    match check_grad_heads (grad_heads config) heads with
    | Some name => Failed (AssertionError name)
    | None =>
        Built {| embed_size := embed_size;
                 shape := shape;
                 feat_size := feat_size;
                 heads := heads;
                 _scales := [("reward", reward_scale config);
                             ("discount", discount_scale config)] |}
    end
  else
    Failed (Exn (NotImplemented
                   (str_pair (size config) ++ " is not applicable now")%string)).

End WorldModelInit.

(* ------------------------------------------------------------------ *)
(** * The batch of the caller

    [preprocess] starts with [obs = obs.copy()], which copies the
    dictionary and not the arrays it holds.  The assignments to
    [obs["image"]] and [obs["reward"]] bind new tensors in the copy.
    [obs["discount"] *= self._config.discount] multiplies the array in
    place, and that array is the one the batch of the caller holds. *)

Module InPlace.

(** The batch of the caller after the call, and what the call returns.
    Both [raise] statements come before the in-place product. *)
Definition preprocess {Sched : Type} (config : WorldModel.Config Sched)
    (obs : WorldModel.Obs) : WorldModel.Obs * result WorldModel.Data :=
  match WorldModel.preprocess config obs with
  | Raise e => (obs, Raise e)
  | Ok data =>
      ({| WorldModel.obs_action := WorldModel.obs_action obs;
          WorldModel.obs_image := WorldModel.obs_image obs;
          WorldModel.obs_reward := WorldModel.obs_reward obs;
          WorldModel.obs_discount :=
            match WorldModel.obs_discount obs with
            | Some d => Some (map (fun v => v * WorldModel.discount config) d)
            | None => None
            end |},
       Ok data)
  end.

(** [_compute_target] together with the reward tensor of the caller
    after the call: [reward += ...] adds the entropy bonuses in place,
    before the critic is evaluated, so also when the call raises. *)
Definition _compute_target {State Feat Action Rng : Type}
    (config : ImagBehavior.Config)
    (dynamics : ImagBehavior.Dynamics State Feat Action Rng)
    (heads : ImagBehavior.Heads Feat)
    (self : ImagBehavior.t) (imag_feat : list Feat)
    (imag_state : list State) (imag_action : list Action)
    (reward actor_ent state_ent : Tensor) (slow : bool)
    : Tensor * result (list R * Tensor) :=
  (ImagBehavior.target_reward config reward actor_ent state_ent,
   ImagBehavior._compute_target config dynamics heads self imag_feat imag_state
                                imag_action reward actor_ent state_ent slow).

End InPlace.

(* ------------------------------------------------------------------ *)
(** * ImagBehavior._compute_actor_loss *)

Module ActorLoss.

(** The options that [_compute_actor_loss] reads beyond those of
    [ImagBehavior.Config]; [imag_gradient_mix] is a schedule, and the field
    holds the value of the call [config.imag_gradient_mix()]. *)
Record Config : Type := {
  behaviour : ImagBehavior.Config;
  reward_EMA : bool;
  imag_gradient : string;
  imag_gradient_mix : R
}.

(** The policy [self.actor(inp)] on a stacked sequence of features:
    [policy.log_prob(imag_action)] and [policy.entropy()]. *)
Record Actor (Feat Action : Type) : Type := {
  log_prob : list Feat -> list Action -> Tensor;
  entropy : list Feat -> Tensor
}.

Arguments log_prob {Feat Action} _.
Arguments entropy {Feat Action} _.

Section Model.

Context {State Feat Action Rng : Type}.
Variable config : Config.
Variable dynamics : ImagBehavior.Dynamics State Feat Action Rng.
Variable heads : ImagBehavior.Heads Feat.
Variable actor : Actor Feat Action.

(** The product of the score and the detached advantage of the modes
    "reinforce" and "both". *)
Definition reinforce_target (self : ImagBehavior.t) (inp imag_feat : list Feat)
    (imag_action : list Action) (target : Tensor) : Tensor :=
  tmap2 Rmult
    (drop_last (log_prob actor inp imag_action))
    (detach (tmap2 Rminus target
               (ImagBehavior.value_mode heads (ImagBehavior.value self)
                  (removelast imag_feat)))).

(** The branch on [config.imag_gradient]: the actor target and the
    metrics after it. *)
Definition gradient_target (self : ImagBehavior.t) (inp imag_feat : list Feat)
    (imag_action : list Action) (target : Tensor)
    (metrics : list (string * R)) : result (Tensor * list (string * R)) :=
  if (imag_gradient config =? "dynamics")%string then
    Ok (target, metrics)
  else if (imag_gradient config =? "reinforce")%string then
    Ok (reinforce_target self inp imag_feat imag_action target, metrics)
  else if (imag_gradient config =? "both")%string then
    let actor_target :=
      reinforce_target self inp imag_feat imag_action target in
    let mix := imag_gradient_mix config in
    Ok (add (scale_by mix target) (scale_by (1 - mix) actor_target),
        metrics ++ [("imag_gradient_mix", mix)])
  else Raise (NotImplementedError (imag_gradient config)).

(** The two entropy bonuses that are added to the actor target when the
    entropy is not part of the return already. *)
Definition entropy_bonus (actor_ent state_ent : Tensor)
    (tm : Tensor * list (string * R)) : Tensor * list (string * R) :=
  let base := behaviour config in
  let '(actor_target, metrics) := tm in
  let '(actor_target, metrics) :=
    if negb (ImagBehavior.future_entropy base)
       && (if Rlt_dec 0 (ImagBehavior.actor_entropy base) then true else false)
    then
      let actor_entropy :=
        scale_by (ImagBehavior.actor_entropy base) (drop_last actor_ent) in
      (add actor_target actor_entropy,
       metrics ++ [("actor_entropy", mean actor_entropy)])
    else (actor_target, metrics) in
  if negb (ImagBehavior.future_entropy base)
     && (if Rlt_dec 0 (ImagBehavior.actor_state_entropy base)
         then true else false)
  then
    let state_entropy :=
      scale_by (ImagBehavior.actor_state_entropy base) (drop_last state_ent) in
    (add actor_target state_entropy,
     metrics ++ [("actor_state_entropy", mean state_entropy)])
  else (actor_target, metrics).

(** [target] is the stacked target; [torch.stack(target, dim=1)] only
    changes the layout.  The argument [actor_ent] is overwritten by the
    entropy of the policy.  The result pairs [self.reward_ema] after the
    call with what the call returns: the loss and the metrics. *)
Definition _compute_actor_loss (self : ImagBehavior.t) (reward_ema : RewardEMA.t)
    (imag_feat : list Feat) (imag_state : list State)
    (imag_action : list Action)
    (target actor_ent state_ent weights : Tensor)
    : RewardEMA.t * result (R * list (string * R)) :=
  let inp :=
    if ImagBehavior._stop_grad_actor self
    then map (ImagBehavior.detach_feat dynamics) imag_feat
    else imag_feat in
  let actor_ent := entropy actor inp in
  match (if reward_EMA config then RewardEMA.__call__ reward_ema target
         else Ok (reward_ema, target)) with
  | Raise e => (reward_ema, Raise e)
  | Ok (reward_ema, target) =>
      let metrics :=
        if reward_EMA config then [("EMA_scale", RewardEMA.scale reward_ema)]
        else [] in
      match gradient_target self inp imag_feat imag_action target metrics with
      | Raise e => (reward_ema, Raise e)
      | Ok tm =>
          let '(actor_target, metrics) := entropy_bonus actor_ent state_ent tm in
          let actor_loss :=
            - mean (tmap2 Rmult (drop_last weights) actor_target) in
          (reward_ema, Ok (actor_loss, metrics))
      end
  end.

End Model.

End ActorLoss.

(* ------------------------------------------------------------------ *)
(** * Notions used in the statements *)

(** The entries of [cumprod(cat([ones_like(d[:1]), d[:-1]], 0), 0)] for the
    entries [d] of a discount sequence. *)
Definition weights_of (d : list R) : list R :=
  cumprod_from 1 (map (fun _ => 1) (firstn 1 d) ++ removelast d).

(** The transform names that [preprocess] accepts. *)
Definition recognised_obs_trans (name : string) : bool :=
  (name =? "normalize")%string || (name =? "identity")%string
  || (name =? "symlog")%string.

Definition recognised_reward_trans (name : string) : bool :=
  (name =? "tanh")%string || (name =? "identity")%string
  || (name =? "symlog")%string.

(* ------------------------------------------------------------------ *)
(** * A small instance

    Concrete collaborators on which the definitions above evaluate:
    latent states, features and actions are natural numbers, the random
    generator is a counter. *)

Module Examples.

Definition behaviour_config : ImagBehavior.Config :=
  {| ImagBehavior.imag_horizon := 1;
     ImagBehavior.imag_sample := true;
     ImagBehavior.discount := 1 / 2;
     ImagBehavior.discount_lambda := 95 / 100;
     ImagBehavior.future_entropy := false;
     ImagBehavior.actor_entropy := 0;
     ImagBehavior.actor_state_entropy := 0;
     ImagBehavior.critic_trans := "identity";
     ImagBehavior.slow_value_target := true;
     ImagBehavior.slow_actor_target := true;
     ImagBehavior.slow_target_update := 2;
     ImagBehavior.slow_target_fraction := 1 |}.

Definition critic : ImagBehavior.t :=
  {| ImagBehavior.value := [[1; 2]];
     ImagBehavior._slow_value := [[5; 6]];
     ImagBehavior._updates := 0;
     ImagBehavior._stop_grad_actor := true |}.

Definition dynamics : ImagBehavior.Dynamics nat nat nat nat :=
  {| ImagBehavior.get_feat := fun state => state;
     ImagBehavior.img_step :=
       fun state action _ g => ((state + action + 1)%nat, S g);
     ImagBehavior.flatten := fun state => state;
     ImagBehavior.zero_feat := fun _ => 0%nat;
     ImagBehavior.detach_feat := fun feat => feat |}.

Definition policy (feat : nat) : ImagBehavior.ActionDist nat nat :=
  {| ImagBehavior.sample := fun g => ((feat + g)%nat, S g);
     ImagBehavior.mode := feat |}.

(** A critic that returns 3, 4, ... along the sequence, and no discount
    head. *)
Definition heads : ImagBehavior.Heads nat :=
  {| ImagBehavior.value_mode :=
       fun _ feats => of_array (map (fun f => INR f + 3) feats);
     ImagBehavior.discount_mean := None |}.

Definition world_config : WorldModel.Config R :=
  {| WorldModel.obs_trans := "identity";
     WorldModel.reward_trans := "identity";
     WorldModel.discount := 1;
     WorldModel.pred_discount := true;
     WorldModel.grad_heads := ["image"; "reward"];
     WorldModel.reward_scale := 2;
     WorldModel.discount_scale := 3;
     WorldModel.kl_forward := false;
     WorldModel.kl_free := 1;
     WorldModel.kl_lscale := 1;
     WorldModel.kl_rscale := 1 |}.

(** The same options with an observation transform and a reward
    transform that [preprocess] does not know. *)
Definition unknown_obs_config : WorldModel.Config R :=
  {| WorldModel.obs_trans := "sqrt";
     WorldModel.reward_trans := "identity";
     WorldModel.discount := 1;
     WorldModel.pred_discount := true;
     WorldModel.grad_heads := ["image"; "reward"];
     WorldModel.reward_scale := 2;
     WorldModel.discount_scale := 3;
     WorldModel.kl_forward := false;
     WorldModel.kl_free := 1;
     WorldModel.kl_lscale := 1;
     WorldModel.kl_rscale := 1 |}.

Definition unknown_reward_config : WorldModel.Config R :=
  {| WorldModel.obs_trans := "identity";
     WorldModel.reward_trans := "clip";
     WorldModel.discount := 1;
     WorldModel.pred_discount := true;
     WorldModel.grad_heads := ["image"; "reward"];
     WorldModel.reward_scale := 2;
     WorldModel.discount_scale := 3;
     WorldModel.kl_forward := false;
     WorldModel.kl_free := 1;
     WorldModel.kl_lscale := 1;
     WorldModel.kl_rscale := 1 |}.

(** A head whose log-likelihood of a target is the target itself. *)
Definition head (feat : Tensor) : WorldModel.Dist :=
  {| WorldModel.log_prob := fun target => target;
     WorldModel.mode := feat;
     WorldModel.dist_mean := feat;
     WorldModel.entropy := feat |}.

Definition nets : WorldModel.Nets R Tensor :=
  {| WorldModel.encoder := fun data => WorldModel.image data;
     WorldModel.observe := fun embed _ => (embed, embed);
     WorldModel.imagine := fun _ init => init;
     WorldModel.get_feat := fun latent => latent;
     WorldModel.get_dist_entropy := fun latent => latent;
     WorldModel.kl_loss := fun _ _ _ _ _ _ => (1, of_array [], 0, 0);
     WorldModel.image_head := head;
     WorldModel.reward_head := head;
     WorldModel.discount_head := head;
     WorldModel.schedule := fun s _ => s;
     WorldModel.take6 := fun x => x;
     WorldModel.take6_until5 := fun x => x;
     WorldModel.take6_from5 := fun x => x;
     WorldModel.until5 := fun x => x;
     WorldModel.last_step := fun latent => latent;
     WorldModel.cat1 := fun xs => fold_right cat (of_array []) xs;
     WorldModel.cat2 := fun xs => fold_right cat (of_array []) xs |}.

Definition obs : WorldModel.Obs :=
  {| WorldModel.obs_action := [0; 1];
     WorldModel.obs_image := [2; 4];
     WorldModel.obs_reward := [1; 3];
     WorldModel.obs_discount := Some [1; 1] |}.

End Examples.

(* ------------------------------------------------------------------ *)
(** * Further instances *)

Module MoreExamples.

Definition init_config : WorldModelInit.Config :=
  {| WorldModelInit.size := (64, 64)%Z;
     WorldModelInit.encoder_kernels := [4; 4; 4; 4]%Z;
     WorldModelInit.cnn_depth := 32;
     WorldModelInit.grayscale := false;
     WorldModelInit.dyn_stoch := 32;
     WorldModelInit.dyn_discrete := 32;
     WorldModelInit.dyn_deter := 512;
     WorldModelInit.pred_discount := false;
     WorldModelInit.grad_heads := ["image"; "reward"];
     WorldModelInit.reward_scale := 1;
     WorldModelInit.discount_scale := 1 |}.

(** The same options, asking for gradients of a discount head that is
    not built. *)
Definition init_config_discount : WorldModelInit.Config :=
  {| WorldModelInit.size := (64, 64)%Z;
     WorldModelInit.encoder_kernels := [4; 4; 4; 4]%Z;
     WorldModelInit.cnn_depth := 32;
     WorldModelInit.grayscale := false;
     WorldModelInit.dyn_stoch := 32;
     WorldModelInit.dyn_discrete := 32;
     WorldModelInit.dyn_deter := 512;
     WorldModelInit.pred_discount := false;
     WorldModelInit.grad_heads := ["image"; "discount"; "value"];
     WorldModelInit.reward_scale := 1;
     WorldModelInit.discount_scale := 1 |}.

Definition init_config_large : WorldModelInit.Config :=
  {| WorldModelInit.size := (128, 128)%Z;
     WorldModelInit.encoder_kernels := [4; 4; 4; 4]%Z;
     WorldModelInit.cnn_depth := 32;
     WorldModelInit.grayscale := false;
     WorldModelInit.dyn_stoch := 32;
     WorldModelInit.dyn_discrete := 32;
     WorldModelInit.dyn_deter := 512;
     WorldModelInit.pred_discount := false;
     WorldModelInit.grad_heads := ["image"; "reward"];
     WorldModelInit.reward_scale := 1;
     WorldModelInit.discount_scale := 1 |}.

Definition normalize_config : WorldModel.Config R :=
  {| WorldModel.obs_trans := "normalize";
     WorldModel.reward_trans := "tanh";
     WorldModel.discount := 1 / 2;
     WorldModel.pred_discount := true;
     WorldModel.grad_heads := ["image"];
     WorldModel.reward_scale := 2;
     WorldModel.discount_scale := 3;
     WorldModel.kl_forward := false;
     WorldModel.kl_free := 1;
     WorldModel.kl_lscale := 1;
     WorldModel.kl_rscale := 1 |}.

Definition symlog_config : WorldModel.Config R :=
  {| WorldModel.obs_trans := "symlog";
     WorldModel.reward_trans := "symlog";
     WorldModel.discount := 1 / 2;
     WorldModel.pred_discount := false;
     WorldModel.grad_heads := ["image"];
     WorldModel.reward_scale := 2;
     WorldModel.discount_scale := 3;
     WorldModel.kl_forward := false;
     WorldModel.kl_free := 1;
     WorldModel.kl_lscale := 1;
     WorldModel.kl_rscale := 1 |}.

Definition obs : WorldModel.Obs :=
  {| WorldModel.obs_action := [0; 1];
     WorldModel.obs_image := [0; 255];
     WorldModel.obs_reward := [1; 3];
     WorldModel.obs_discount := Some [1; 1] |}.

Definition obs_without_discount : WorldModel.Obs :=
  {| WorldModel.obs_action := [0; 1];
     WorldModel.obs_image := [0; 255];
     WorldModel.obs_reward := [1; 3];
     WorldModel.obs_discount := None |}.

Definition behaviour_off : ImagBehavior.Config :=
  {| ImagBehavior.imag_horizon := 1;
     ImagBehavior.imag_sample := true;
     ImagBehavior.discount := 1 / 2;
     ImagBehavior.discount_lambda := 95 / 100;
     ImagBehavior.future_entropy := false;
     ImagBehavior.actor_entropy := 0;
     ImagBehavior.actor_state_entropy := 0;
     ImagBehavior.critic_trans := "identity";
     ImagBehavior.slow_value_target := false;
     ImagBehavior.slow_actor_target := false;
     ImagBehavior.slow_target_update := 2;
     ImagBehavior.slow_target_fraction := 1 |}.

Definition behaviour_period_zero : ImagBehavior.Config :=
  {| ImagBehavior.imag_horizon := 1;
     ImagBehavior.imag_sample := true;
     ImagBehavior.discount := 1 / 2;
     ImagBehavior.discount_lambda := 95 / 100;
     ImagBehavior.future_entropy := false;
     ImagBehavior.actor_entropy := 0;
     ImagBehavior.actor_state_entropy := 0;
     ImagBehavior.critic_trans := "identity";
     ImagBehavior.slow_value_target := true;
     ImagBehavior.slow_actor_target := false;
     ImagBehavior.slow_target_update := 0;
     ImagBehavior.slow_target_fraction := 1 |}.


(** Entropy folded into the return. *)
Definition behaviour_future : ImagBehavior.Config :=
  {| ImagBehavior.imag_horizon := 1;
     ImagBehavior.imag_sample := true;
     ImagBehavior.discount := 1 / 2;
     ImagBehavior.discount_lambda := 95 / 100;
     ImagBehavior.future_entropy := true;
     ImagBehavior.actor_entropy := 1 / 10;
     ImagBehavior.actor_state_entropy := 0;
     ImagBehavior.critic_trans := "identity";
     ImagBehavior.slow_value_target := true;
     ImagBehavior.slow_actor_target := false;
     ImagBehavior.slow_target_update := 1;
     ImagBehavior.slow_target_fraction := 1 / 2 |}.

Definition actor : ActorLoss.Actor nat nat :=
  {| ActorLoss.log_prob :=
       fun feats actions => of_array (map (fun f => - INR f) feats);
     ActorLoss.entropy := fun feats => of_array (map (fun _ => 1) feats) |}.

Definition loss_config (mode : string) (mix : R) : ActorLoss.Config :=
  {| ActorLoss.behaviour := Examples.behaviour_config;
     ActorLoss.reward_EMA := true;
     ActorLoss.imag_gradient := mode;
     ActorLoss.imag_gradient_mix := mix |}.

End MoreExamples.

(* ------------------------------------------------------------------ *)
(** * Theorems *)

Lemma sign_pos (x : R) : 0 < x -> sign x = 1.
Proof.
  intros H. unfold sign. destruct (Rlt_dec 0 x); [reflexivity | contradiction].
Qed.

Lemma sign_neg (x : R) : x < 0 -> sign x = -1.
Proof.
  intros H. unfold sign.
  destruct (Rlt_dec 0 x); [lra |].
  destruct (Rlt_dec x 0); [reflexivity | contradiction].
Qed.

Lemma sign_zero : sign 0 = 0.
Proof.
  unfold sign.
  destruct (Rlt_dec 0 0); [lra |].
  destruct (Rlt_dec 0 0); [lra | reflexivity].
Qed.

Lemma symexp_pos (x : R) : 0 < x -> symexp x = exp x - 1 /\ 0 < symexp x.
Proof.
  intros H. unfold symexp.
  rewrite (sign_pos x H), (Rabs_pos_eq x) by lra.
  assert (Hx : x <> 0) by lra.
  pose proof (exp_ineq1 x Hx). split; lra.
Qed.

Lemma symlog_pos (x : R) : 0 < x -> symlog x = ln (x + 1) /\ 0 < symlog x.
Proof.
  intros H. unfold symlog.
  rewrite (sign_pos x H), (Rabs_pos_eq x) by lra.
  assert (Hln : ln 1 < ln (x + 1)) by (apply ln_increasing; lra).
  rewrite ln_1 in Hln. split; lra.
Qed.

Lemma sign_opp (x : R) : sign (- x) = - sign x.
Proof.
  destruct (Rtotal_order x 0) as [Hn | [Hz | Hp]].
  - rewrite (sign_neg x Hn), (sign_pos (- x)) by lra. lra.
  - subst x. rewrite Ropp_0, sign_zero. lra.
  - rewrite (sign_pos x Hp), (sign_neg (- x)) by lra. lra.
Qed.

Lemma symlog_opp (x : R) : symlog (- x) = - symlog x.
Proof.
  unfold symlog. rewrite sign_opp, Rabs_Ropp. lra.
Qed.

Lemma symexp_opp (x : R) : symexp (- x) = - symexp x.
Proof.
  unfold symexp. rewrite sign_opp, Rabs_Ropp. lra.
Qed.

Lemma symlog_0 : symlog 0 = 0.
Proof. unfold symlog. rewrite sign_zero. lra. Qed.

Lemma symexp_0 : symexp 0 = 0.
Proof. unfold symexp. rewrite sign_zero. lra. Qed.

Lemma symlog_symexp_pos (x : R) : 0 < x -> symlog (symexp x) = x.
Proof.
  intros H. destruct (symexp_pos x H) as [He Hp].
  destruct (symlog_pos _ Hp) as [Hl _].
  rewrite Hl, He. replace (exp x - 1 + 1) with (exp x) by lra.
  apply ln_exp.
Qed.

Lemma symexp_symlog_pos (x : R) : 0 < x -> symexp (symlog x) = x.
Proof.
  intros H. destruct (symlog_pos x H) as [Hl Hp].
  destruct (symexp_pos _ Hp) as [He _].
  rewrite He, Hl, exp_ln by lra. lra.
Qed.

(** C8. symlog and symexp are inverse to each other on every real number,
    in both orders, and symlog is an odd function. *)
Theorem symlog_symexp_inverse :
  (forall x : R, symlog (symexp x) = x)
  /\ (forall x : R, symexp (symlog x) = x)
  /\ (forall x : R, symlog (- x) = - symlog x).
Proof.
  split; [| split].
  - intros x. destruct (Rtotal_order x 0) as [Hn | [Hz | Hp]].
    + replace x with (- - x) at 1 by lra.
      rewrite symexp_opp, symlog_opp, symlog_symexp_pos by lra. lra.
    + subst x. rewrite symexp_0. apply symlog_0.
    + apply symlog_symexp_pos; assumption.
  - intros x. destruct (Rtotal_order x 0) as [Hn | [Hz | Hp]].
    + replace x with (- - x) at 1 by lra.
      rewrite symlog_opp, symexp_opp, symexp_symlog_pos by lra. lra.
    + subst x. rewrite symlog_0. apply symexp_0.
    + apply symexp_symlog_pos; assumption.
  - exact symlog_opp.
Qed.

(* ------------------------------------------------------------------ *)
(** ** Sorting and quantiles *)

Lemma insert_length (a : R) (l : list R) :
  length (insert a l) = S (length l).
Proof.
  induction l as [| b l IH]; simpl; [reflexivity |].
  destruct (Rle_dec a b); simpl; [reflexivity | now rewrite IH].
Qed.

Lemma sort_length (l : list R) : length (sort l) = length l.
Proof.
  induction l as [| a l IH]; simpl; [reflexivity |].
  now rewrite insert_length, IH.
Qed.

Lemma insert_In (v a : R) (l : list R) :
  In v (insert a l) -> v = a \/ In v l.
Proof.
  induction l as [| b l IH]; simpl.
  - intros [H | []]; auto.
  - destruct (Rle_dec a b); simpl.
    + intros [H | [H | H]]; auto.
    + intros [H | H]; auto. destruct (IH H); auto.
Qed.

Lemma sort_In (v : R) (l : list R) : In v (sort l) -> In v l.
Proof.
  induction l as [| a l IH]; simpl; [auto |].
  intros H. destruct (insert_In _ _ _ H); auto.
Qed.

Lemma floor_rank_bounds (q : R) (n : nat) :
  0 <= q <= 1 ->
  (Z.to_nat (floor (q * INR n)) <= n)%nat.
Proof.
  intros Hq. unfold floor.
  pose proof (pos_INR n) as Hn.
  destruct (base_Int_part (q * INR n)) as [Hle Hgt].
  assert (Hub : IZR (Int_part (q * INR n)) <= IZR (Z.of_nat n)).
  { rewrite <- INR_IZR_INZ. nra. }
  apply le_IZR in Hub. lia.
Qed.

Lemma ceil_rank_bounds (q : R) (n : nat) :
  0 <= q <= 1 ->
  (Z.to_nat (ceil (q * INR n)) <= n)%nat.
Proof.
  intros Hq. unfold ceil.
  pose proof (pos_INR n) as Hn.
  destruct (base_Int_part (- (q * INR n))) as [Hle Hgt].
  assert (Hlb : IZR (- Z.of_nat n - 1) < IZR (Int_part (- (q * INR n)))).
  { rewrite minus_IZR, opp_IZR, <- INR_IZR_INZ. nra. }
  apply lt_IZR in Hlb. lia.
Qed.

Lemma quantile_nonempty (input : list R) (q : R) :
  input <> [] -> exists v, quantile input q = Ok v.
Proof.
  destruct input as [| a l]; [congruence |].
  intros _. eexists. reflexivity.
Qed.


(* ------------------------------------------------------------------ *)
(** ** RewardEMA *)

Lemma reward_ema_spread_nonempty (self : RewardEMA.t) (x : Tensor) :
  data x <> [] ->
  exists q0 q1,
    quantile (data x) (fst (RewardEMA.range self)) = Ok q0
    /\ quantile (data x) (snd (RewardEMA.range self)) = Ok q1
    /\ RewardEMA.spread self x = Ok (q1 - q0).
Proof.
  intros Hne.
  destruct (quantile_nonempty _ (fst (RewardEMA.range self)) Hne) as [q0 H0].
  destruct (quantile_nonempty _ (snd (RewardEMA.range self)) Hne) as [q1 H1].
  exists q0, q1. repeat split; try assumption.
  unfold RewardEMA.spread. simpl. rewrite H0, H1. reflexivity.
Qed.

Lemma reward_ema_call_spread (self : RewardEMA.t) (x : Tensor) (s : R) :
  RewardEMA.spread self x = Ok s ->
  RewardEMA.__call__ self x =
    Ok (RewardEMA.mk
          (RewardEMA.alpha self * s
           + (1 - RewardEMA.alpha self) * RewardEMA.scale self)
          (RewardEMA.alpha self) (RewardEMA.range self),
        tmap (fun v =>
                v / clip_min 1 (RewardEMA.alpha self * s
                                + (1 - RewardEMA.alpha self)
                                  * RewardEMA.scale self)) x).
Proof.
  intros Hs. unfold RewardEMA.__call__. rewrite Hs. reflexivity.
Qed.

Lemma reward_ema_spread_range (s1 s2 : RewardEMA.t) (x : Tensor) :
  RewardEMA.range s1 = RewardEMA.range s2 ->
  RewardEMA.spread s1 x = RewardEMA.spread s2 x.
Proof.
  intros H. unfold RewardEMA.spread. now rewrite H.
Qed.

Lemma reward_ema_run_fields (self : RewardEMA.t) (xs : nat -> Tensor) (n : nat) :
  RewardEMA.alpha (RewardEMA.run self xs n) = RewardEMA.alpha self
  /\ RewardEMA.range (RewardEMA.run self xs n) = RewardEMA.range self.
Proof.
  induction n as [| n [IHa IHr]]; simpl; [split; reflexivity |].
  unfold RewardEMA.__call__.
  destruct (RewardEMA.spread (RewardEMA.run self xs n) (xs n)); simpl;
    split; assumption.
Qed.

Lemma reward_ema_run_step (self : RewardEMA.t) (xs : nat -> Tensor)
    (n : nat) (s : R) :
  RewardEMA.spread self (xs n) = Ok s ->
  RewardEMA.scale (RewardEMA.run self xs (S n))
  = RewardEMA.alpha self * s
    + (1 - RewardEMA.alpha self) * RewardEMA.scale (RewardEMA.run self xs n).
Proof.
  intros Hs. destruct (reward_ema_run_fields self xs n) as [Ha Hr].
  simpl. rewrite (reward_ema_call_spread _ _ s).
  - simpl. now rewrite Ha.
  - now rewrite (reward_ema_spread_range _ self).
Qed.






(* ------------------------------------------------------------------ *)

Lemma clip_min_ge (s : R) : 1 <= clip_min 1 s.
Proof. unfold clip_min. apply Rmax_r. Qed.

Lemma div_clip_le (v s : R) : Rabs (v / clip_min 1 s) <= Rabs v.
Proof.
  pose proof (clip_min_ge s) as Hd.
  unfold Rdiv. rewrite Rabs_mult, Rabs_inv, (Rabs_pos_eq (clip_min 1 s)) by lra.
  pose proof (Rabs_pos v) as Hv.
  assert (Hinv : / clip_min 1 s <= 1).
  { apply Rle_trans with (/ 1); [apply Rinv_le_contravar; lra |].
    rewrite Rinv_1. lra. }
  assert (0 < / clip_min 1 s) by (apply Rinv_0_lt_compat; lra).
  nra.
Qed.

Lemma map_div_one (l : list R) (d : R) : d = 1 -> map (fun v => v / d) l = l.
Proof.
  intros ->. induction l as [| a l IH]; simpl; [reflexivity |].
  rewrite IH. f_equal. lra.
Qed.

Lemma nth_map_zero (f : R -> R) (l : list R) (i : nat) :
  f 0 = 0 -> nth i (map f l) 0 = f (nth i l 0).
Proof.
  intros Hf. rewrite <- Hf at 1. apply map_nth.
Qed.

(** C9 (amended). RewardEMA never amplifies its input: every entry of the
    returned tensor is the entry of x divided by the updated scale clipped
    below at 1, so its absolute value is at most that of the entry of x;
    and when the updated scale (the one the call stores) is at most 1 the
    output equals x. *)
Theorem reward_ema_never_amplifies (self : RewardEMA.t) (x : Tensor) :
  data x <> [] ->
  exists self' y,
    RewardEMA.__call__ self x = Ok (self', y)
    /\ data y = map (fun v => v / clip_min 1 (RewardEMA.scale self')) (data x)
    /\ length (data y) = length (data x)
    /\ (forall i, Rabs (nth i (data y) 0) <= Rabs (nth i (data x) 0))
    /\ (RewardEMA.scale self' <= 1 -> y = x).
Proof.
  intros Hne.
  destruct (reward_ema_spread_nonempty self x Hne) as (q0 & q1 & _ & _ & Hsp).
  do 2 eexists. split; [apply (reward_ema_call_spread _ _ _ Hsp) |].
  simpl. split; [reflexivity | split; [apply length_map | split]].
  - intros i.
    rewrite nth_map_zero by (unfold Rdiv; lra). apply div_clip_le.
  - intros Hle. unfold tmap. simpl.
    rewrite map_div_one.
    + destruct x; reflexivity.
    + unfold clip_min. apply Rmax_right. exact Hle.
Qed.

Lemma reward_ema_never_amplifies_witness :
  exists self' y,
    RewardEMA.__call__ (RewardEMA.__init__ RewardEMA.default_alpha)
                       (of_array [2; 4]) = Ok (self', y)
    /\ length (data y) = 2%nat.
Proof.
  assert (Hne : data (of_array [2; 4]) <> []) by (simpl; discriminate).
  destruct (reward_ema_never_amplifies
              (RewardEMA.__init__ RewardEMA.default_alpha)
              (of_array [2; 4]) Hne) as (self' & y & Hc & _ & Hl & _).
  exists self', y. split; [exact Hc | exact Hl].
Defined.

Lemma floor_unique (r : R) (z : Z) : IZR z <= r < IZR z + 1 -> floor r = z.
Proof.
  intros H. unfold floor. symmetry. apply Int_part_spec. lra.
Qed.

Lemma ceil_unique (r : R) (z : Z) : IZR z - 1 < r <= IZR z -> ceil r = z.
Proof.
  intros H. unfold ceil.
  rewrite <- (Int_part_spec (- r) (- z)); [lia |].
  rewrite opp_IZR. lra.
Qed.

(** The quantiles of a two-element input interpolate between its entries. *)
Lemma quantile_pair (a b q : R) :
  a <= b -> 0 < q < 1 -> quantile [a; b] q = Ok (a + q * (b - a)).
Proof.
  intros Hab Hq. unfold quantile.
  assert (Hsort : sort [a; b] = [a; b]).
  { simpl. destruct (Rle_dec a b); [reflexivity | contradiction]. }
  rewrite Hsort.
  replace (INR (length [a; b] - 1)) with 1 by (simpl; lra).
  rewrite (floor_unique (q * 1) 0) by (simpl; lra).
  rewrite (ceil_unique (q * 1) 1) by (simpl; lra).
  simpl. f_equal. lra.
Qed.

(** C9, as stated, fails: from the zero-initialised state, whose scale is
    at most 1, the input [0, 1000] has the quantiles 50 and 950, the call
    stores the scale 0.01 * 900 = 9 and returns the input divided by 9. *)
Lemma reward_ema_zero_init_rescales :
  let self := RewardEMA.__init__ RewardEMA.default_alpha in
  let x := of_array [0; 1000] in
  RewardEMA.scale self <= 1
  /\ exists self' y,
       RewardEMA.__call__ self x = Ok (self', y)
       /\ RewardEMA.scale self' = 9
       /\ nth 1 (data y) 0 = 1000 / 9
       /\ y <> x.
Proof.
  intros self x.
  assert (Hsp : RewardEMA.spread self x = Ok 900).
  { unfold RewardEMA.spread, self, x, RewardEMA.__init__, detach, of_array.
    cbn [data RewardEMA.range fst snd].
    rewrite !quantile_pair by lra. cbn [bind]. f_equal. lra. }
  assert (Hscale : RewardEMA.alpha self * 900
                   + (1 - RewardEMA.alpha self) * RewardEMA.scale self = 9).
  { unfold self, RewardEMA.default_alpha. simpl. lra. }
  split; [simpl; lra |].
  do 2 eexists. split; [apply (reward_ema_call_spread _ _ _ Hsp) |].
  rewrite Hscale.
  assert (Hclip : clip_min 1 9 = 9) by (unfold clip_min; apply Rmax_left; lra).
  split; [reflexivity | split].
  - simpl. rewrite Hclip. reflexivity.
  - unfold tmap, x. simpl. rewrite Hclip. intros Heq.
    injection Heq as _ Heq. lra.
Qed.

(* ------------------------------------------------------------------ *)
(** ** The slow critic *)

Lemma zip_with_length (f : R -> R -> R) (l1 l2 : list R) :
  length l1 = length l2 -> length (zip_with f l1 l2) = length l2.
Proof.
  revert l2. induction l1 as [| a l1 IH]; intros [| b l2] H; simpl in *;
    try discriminate; [reflexivity |].
  now rewrite IH by lia.
Qed.

Lemma zip_with_nth (f : R -> R -> R) (l1 l2 : list R) (j : nat) :
  length l1 = length l2 -> (j < length l2)%nat ->
  nth j (zip_with f l1 l2) 0 = f (nth j l1 0) (nth j l2 0).
Proof.
  revert l2 j. induction l1 as [| a l1 IH]; intros [| b l2] j H Hj;
    simpl in *; try discriminate; try lia.
  destruct j as [| j]; [reflexivity |]. apply IH; lia.
Qed.

Lemma zip_with_ext_r (f : R -> R -> R) (l1 l2 : list R) :
  length l1 = length l2 -> (forall a b, f a b = b) -> zip_with f l1 l2 = l2.
Proof.
  intros H Hf. revert l2 H.
  induction l1 as [| a l1 IH]; intros [| b l2] H; simpl in *;
    try discriminate; [reflexivity |].
  now rewrite Hf, IH by lia.
Qed.

Lemma zip_with_ext_l (f : R -> R -> R) (l1 l2 : list R) :
  length l1 = length l2 -> (forall a b, f a b = a) -> zip_with f l1 l2 = l1.
Proof.
  intros H Hf. revert l2 H.
  induction l1 as [| a l1 IH]; intros [| b l2] H; simpl in *;
    try discriminate; [reflexivity |].
  now rewrite Hf, IH by lia.
Qed.

Lemma mix_parameters_0 (live slow : ImagBehavior.Params) :
  ImagBehavior.same_shape live slow ->
  ImagBehavior.mix_parameters 0 live slow = slow.
Proof.
  induction 1 as [| s d live slow Hsd _ IH]; simpl; [reflexivity |].
  rewrite IH, zip_with_ext_r; [reflexivity | assumption | intros; lra].
Qed.

Lemma mix_parameters_1 (live slow : ImagBehavior.Params) :
  ImagBehavior.same_shape live slow ->
  ImagBehavior.mix_parameters 1 live slow = live.
Proof.
  induction 1 as [| s d live slow Hsd _ IH]; simpl; [reflexivity |].
  rewrite IH, zip_with_ext_l; [reflexivity | assumption | intros; lra].
Qed.

Lemma mix_parameters_nth (mix : R) (live slow : ImagBehavior.Params) (i j : nat) :
  ImagBehavior.same_shape live slow ->
  (i < length slow)%nat -> (j < length (nth i slow []))%nat ->
  nth j (nth i (ImagBehavior.mix_parameters mix live slow) []) 0
  = mix * nth j (nth i live []) 0 + (1 - mix) * nth j (nth i slow []) 0.
Proof.
  intros Hs. revert i.
  induction Hs as [| s d live slow Hsd _ IH]; intros i Hi Hj; simpl in *;
    [lia |].
  destruct i as [| i].
  - now apply zip_with_nth.
  - apply IH; [lia | assumption].
Qed.

Lemma same_shape_refl (p : ImagBehavior.Params) : ImagBehavior.same_shape p p.
Proof.
  induction p; constructor; auto.
Qed.

Section SlowTarget.

Variable config : ImagBehavior.Config.
Hypothesis enabled :
  ImagBehavior.slow_value_target config || ImagBehavior.slow_actor_target config
  = true.
Hypothesis period_pos : (0 < ImagBehavior.slow_target_update config)%Z.

Let k := ImagBehavior.slow_target_update config.
Let mix := ImagBehavior.slow_target_fraction config.

Lemma update_slow_target_call (self : ImagBehavior.t) :
  ImagBehavior._update_slow_target config self
  = Ok {| ImagBehavior.value := ImagBehavior.value self;
          ImagBehavior._slow_value :=
            if (ImagBehavior._updates self mod k =? 0)%Z
            then ImagBehavior.mix_parameters mix (ImagBehavior.value self)
                                             (ImagBehavior._slow_value self)
            else ImagBehavior._slow_value self;
          ImagBehavior._updates := (ImagBehavior._updates self + 1)%Z;
          ImagBehavior._stop_grad_actor := ImagBehavior._stop_grad_actor self |}.
Proof.
  unfold ImagBehavior._update_slow_target. rewrite enabled.
  destruct (Z.eqb_spec (ImagBehavior.slow_target_update config) 0) as [H0 | _];
    [lia | reflexivity].
Qed.

(** With fraction 0 any number of calls keeps the slow parameters. *)
Lemma update_slow_target_frozen (self : ImagBehavior.t) (n : nat) :
  mix = 0 ->
  ImagBehavior.same_shape (ImagBehavior.value self) (ImagBehavior._slow_value self) ->
  exists self',
    ImagBehavior.update_slow_target_times config n self = Ok self'
    /\ ImagBehavior.value self' = ImagBehavior.value self
    /\ ImagBehavior._slow_value self' = ImagBehavior._slow_value self
    /\ ImagBehavior._updates self' = (ImagBehavior._updates self + Z.of_nat n)%Z.
Proof.
  intros Hmix Hshape. induction n as [| n (self1 & Hrun & Hv & Hs & Hu)].
  - exists self. simpl. repeat split; try reflexivity. lia.
  - eexists. simpl. rewrite Hrun. simpl. rewrite update_slow_target_call.
    split; [reflexivity |]. simpl. split; [exact Hv | split; [| lia]].
    destruct (_ =? 0)%Z; [| exact Hs].
    rewrite Hmix, Hv, Hs. now apply mix_parameters_0.
Qed.

(** With fraction 1, once the counter has passed a multiple of the period
    the slow parameters are the live ones, and they stay so. *)
Lemma update_slow_target_copied (self : ImagBehavior.t) (n : nat) :
  mix = 1 ->
  ImagBehavior.same_shape (ImagBehavior.value self) (ImagBehavior._slow_value self) ->
  (ImagBehavior._updates self mod k = 0)%Z ->
  exists self',
    ImagBehavior.update_slow_target_times config (S n) self = Ok self'
    /\ ImagBehavior.value self' = ImagBehavior.value self
    /\ ImagBehavior._slow_value self' = ImagBehavior.value self
    /\ ImagBehavior._updates self' = (ImagBehavior._updates self + Z.of_nat (S n))%Z.
Proof.
  intros Hmix Hshape Hmod. induction n as [| n (self1 & Hrun & Hv & Hs & Hu)].
  - eexists. simpl. rewrite update_slow_target_call.
    split; [reflexivity |]. simpl. split; [reflexivity | split; [| lia]].
    rewrite Hmod. simpl. rewrite Hmix. now apply mix_parameters_1.
  - eexists. change (ImagBehavior.update_slow_target_times config (S (S n)) self)
      with (self' <- ImagBehavior.update_slow_target_times config (S n) self ;;
            ImagBehavior._update_slow_target config self').
    rewrite Hrun. simpl. rewrite update_slow_target_call.
    split; [reflexivity |]. simpl. split; [exact Hv | split; [| lia]].
    destruct (_ =? 0)%Z; [| exact Hs].
    rewrite Hmix, Hv, Hs. apply mix_parameters_1, same_shape_refl.
Qed.

End SlowTarget.

(** C5. With slow targets enabled and a positive period, a call of
    _update_slow_target increments the counter, and replaces every slow
    parameter by mix * live + (1 - mix) * slow exactly when the counter
    (before the increment) is a multiple of slow_target_update; otherwise
    the slow parameters are left as they are.  Hence with fraction 0 the
    slow parameters are unchanged after any number of calls, and with
    fraction 1, starting from the counter 0, they equal the live parameters
    after slow_target_update calls in a row. *)
Theorem update_slow_target_periodic
    (config : ImagBehavior.Config) (self : ImagBehavior.t) :
  ImagBehavior.slow_value_target config || ImagBehavior.slow_actor_target config
  = true ->
  (0 < ImagBehavior.slow_target_update config)%Z ->
  ImagBehavior.same_shape (ImagBehavior.value self) (ImagBehavior._slow_value self) ->
  let k := ImagBehavior.slow_target_update config in
  let mix := ImagBehavior.slow_target_fraction config in
  (exists self',
      ImagBehavior._update_slow_target config self = Ok self'
      /\ ImagBehavior._updates self' = (ImagBehavior._updates self + 1)%Z
      /\ ImagBehavior.value self' = ImagBehavior.value self
      /\ ((ImagBehavior._updates self mod k = 0)%Z ->
          forall i j : nat,
            (i < length (ImagBehavior._slow_value self))%nat ->
            (j < length (nth i (ImagBehavior._slow_value self) []))%nat ->
            nth j (nth i (ImagBehavior._slow_value self') []) 0
            = mix * nth j (nth i (ImagBehavior.value self) []) 0
              + (1 - mix) * nth j (nth i (ImagBehavior._slow_value self) []) 0)
      /\ ((ImagBehavior._updates self mod k <> 0)%Z ->
          ImagBehavior._slow_value self' = ImagBehavior._slow_value self))
  /\ (mix = 0 ->
      forall n : nat, exists self',
        ImagBehavior.update_slow_target_times config n self = Ok self'
        /\ ImagBehavior._slow_value self' = ImagBehavior._slow_value self
        /\ ImagBehavior._updates self'
           = (ImagBehavior._updates self + Z.of_nat n)%Z)
  /\ (mix = 1 -> ImagBehavior._updates self = 0%Z ->
      exists self',
        ImagBehavior.update_slow_target_times config (Z.to_nat k) self = Ok self'
        /\ ImagBehavior._slow_value self' = ImagBehavior.value self
        /\ ImagBehavior._updates self' = k).
Proof.
  intros Hen Hk Hshape k mix. split; [| split].
  - eexists. split; [apply (update_slow_target_call config Hen Hk) |].
    simpl. split; [reflexivity | split; [reflexivity | split]].
    + intros Hmod i j Hi Hj. fold k. rewrite Hmod. simpl.
      now apply mix_parameters_nth.
    + intros Hmod. fold k.
      destruct (Z.eqb_spec (ImagBehavior._updates self mod k) 0);
        [contradiction | reflexivity].
  - intros Hmix n.
    destruct (update_slow_target_frozen config Hen Hk self n Hmix Hshape)
      as (self' & Hrun & _ & Hs & Hu).
    exists self'. auto.
  - intros Hmix Hu0.
    assert (Hn : exists n, Z.to_nat k = S n).
    { exists (Z.to_nat k - 1)%nat. unfold k. lia. }
    destruct Hn as [n Hn]. rewrite Hn.
    assert (Hmod : (ImagBehavior._updates self
                    mod ImagBehavior.slow_target_update config = 0)%Z).
    { rewrite Hu0. apply Z.mod_0_l. lia. }
    destruct (update_slow_target_copied config Hen Hk self n Hmix Hshape Hmod)
      as (self' & Hrun & _ & Hs & Hu).
    exists self'. split; [exact Hrun | split; [exact Hs |]].
    rewrite Hu, Hu0. unfold k in *. lia.
Qed.

(* ------------------------------------------------------------------ *)
(** ** Loss weights *)

Lemma cumprod_from_length (acc : R) (l : list R) :
  length (cumprod_from acc l) = length l.
Proof.
  revert acc. induction l as [| a l IH]; intros acc; simpl;
    [reflexivity | now rewrite IH].
Qed.

Lemma cumprod_from_nth (acc : R) (l : list R) (t : nat) :
  (t < length l)%nat ->
  nth t (cumprod_from acc l) 0 = acc * product (firstn (S t) l).
Proof.
  revert acc t. induction l as [| a l IH]; intros acc t Ht; simpl in Ht;
    [lia |].
  destruct t as [| t].
  - simpl. lra.
  - change (nth (S t) (cumprod_from acc (a :: l)) 0)
      with (nth t (cumprod_from (acc * a) l) 0).
    rewrite IH by lia.
    change (product (firstn (S (S t)) (a :: l)))
      with (a * product (firstn (S t) l)).
    lra.
Qed.

Lemma product_firstn_S (l : list R) (t : nat) :
  (t < length l)%nat ->
  product (firstn (S t) l) = product (firstn t l) * nth t l 0.
Proof.
  revert t. induction l as [| a l IH]; intros t Ht; simpl in Ht; [lia |].
  destruct t as [| t].
  - simpl. lra.
  - change (product (firstn (S (S t)) (a :: l)))
      with (a * product (firstn (S t) l)).
    rewrite IH by lia. simpl. lra.
Qed.

Lemma product_nonneg (l : list R) :
  (forall d, In d l -> 0 <= d) -> 0 <= product l.
Proof.
  induction l as [| a l IH]; intros H; simpl; [lra |].
  apply Rmult_le_pos; [apply H; now left | apply IH; intros; apply H; now right].
Qed.

Lemma In_firstn (d : R) (l : list R) (t : nat) : In d (firstn t l) -> In d l.
Proof.
  revert t. induction l as [| a l IH]; intros [| t]; simpl; try tauto.
  intros [H | H]; [now left | right; now apply (IH t)].
Qed.

Lemma weights_of_length (d : list R) : length (weights_of d) = length d.
Proof.
  unfold weights_of. rewrite cumprod_from_length.
  destruct d as [| a l]; [reflexivity |].
  change (map (fun _ => 1) (firstn 1 (a :: l))) with [1].
  rewrite length_app. simpl length at 1.
  assert (H : (length (removelast (a :: l)) = length l)%nat).
  { rewrite <- (rev_involutive (a :: l)) at 1.
    destruct (rev (a :: l)) as [| b r] eqn:Hr.
    - apply (f_equal (@length R)) in Hr. rewrite length_rev in Hr. discriminate.
    - simpl rev. rewrite removelast_last, length_rev.
      apply (f_equal (@length R)) in Hr. rewrite length_rev in Hr.
      simpl in Hr. lia. }
  rewrite H. reflexivity.
Qed.

Lemma weights_of_nth (d : list R) (t : nat) :
  (t < length d)%nat -> nth t (weights_of d) 0 = product (firstn t d).
Proof.
  intros Ht. unfold weights_of.
  destruct d as [| a l]; [simpl in Ht; lia |].
  change (map (fun _ => 1) (firstn 1 (a :: l))) with [1].
  change ([1] ++ removelast (a :: l)) with (1 :: removelast (a :: l)).
  destruct t as [| t].
  - simpl. lra.
  - change (nth (S t) (cumprod_from 1 (1 :: removelast (a :: l))) 0)
      with (nth t (cumprod_from (1 * 1) (removelast (a :: l))) 0).
    pose proof (weights_of_length (a :: l)) as Hlen.
    unfold weights_of in Hlen. rewrite cumprod_from_length in Hlen.
    change (map (fun _ => 1) (firstn 1 (a :: l))) with [1] in Hlen.
    simpl length in Hlen.
    rewrite cumprod_from_nth by (simpl in *; lia).
    rewrite firstn_removelast by exact Ht. lra.
Qed.

Lemma last_default (l : list R) (a b : R) :
  l <> [] -> last l a = last l b.
Proof.
  induction l as [| c l IH]; [congruence |].
  intros _. destruct l as [| e l]; [reflexivity |].
  change (last (c :: e :: l) a) with (last (e :: l) a).
  change (last (c :: e :: l) b) with (last (e :: l) b).
  apply IH. discriminate.
Qed.

Lemma last_entry_nonempty (x : Tensor) :
  data x <> [] -> last_entry x = Ok (last (data x) 0).
Proof.
  unfold last_entry. destruct (data x) as [| a l]; [congruence |].
  intros _. f_equal. destruct l as [| b l]; [reflexivity |].
  change (last (a :: b :: l) 0) with (last (b :: l) 0).
  apply last_default. discriminate.
Qed.

Section Targets.

Context {State Feat Action Rng : Type}.
Variable config : ImagBehavior.Config.
Variable dynamics : ImagBehavior.Dynamics State Feat Action Rng.
Variable heads : ImagBehavior.Heads Feat.

(** [_compute_target] returns whenever the critic yields a value for at
    least one step. *)
Lemma compute_target_returns (self : ImagBehavior.t) (imag_feat : list Feat)
    (imag_state : list State) (imag_action : list Action)
    (reward actor_ent state_ent : Tensor) (slow : bool) :
  let discount := ImagBehavior.target_discount config dynamics heads imag_state reward in
  let reward' := ImagBehavior.target_reward config reward actor_ent state_ent in
  let value := ImagBehavior.target_value config heads self imag_feat slow in
  data value <> [] ->
  ImagBehavior._compute_target config dynamics heads self imag_feat imag_state
                               imag_action reward actor_ent state_ent slow
  = Ok (Tools.lambda_return (removelast (data reward')) (removelast (data value))
                            (removelast (data discount)) (last (data value) 0)
                            (ImagBehavior.discount_lambda config),
        mkTensor (weights_of (data discount)) false).
Proof.
  intros discount reward' value Hne.
  unfold ImagBehavior._compute_target.
  fold discount. fold reward'. fold value.
  rewrite (last_entry_nonempty value Hne). reflexivity.
Qed.

End Targets.

Lemma weights_of_decreasing (d : list R) (t : nat) :
  (forall v, In v d -> 0 < v < 1) ->
  (S t < length d)%nat ->
  nth (S t) (weights_of d) 0 <= nth t (weights_of d) 0.
Proof.
  intros Hd Ht.
  rewrite !weights_of_nth by lia.
  rewrite product_firstn_S by lia.
  assert (Hp : 0 <= product (firstn t d)).
  { apply product_nonneg. intros v Hv.
    apply In_firstn in Hv. apply Hd in Hv. lra. }
  assert (Hv : 0 < nth t d 0 < 1) by (apply Hd, nth_In; lia).
  nra.
Qed.

(** C6. The weights returned by _compute_target are detached, there is one
    for each entry of the discount sequence, the weight at position t is
    the product of the discounts at the positions before t (so the first
    weight is 1), and when every discount lies strictly between 0 and 1
    the weights do not increase along the horizon. *)
Theorem compute_target_weights {State Feat Action Rng : Type}
    (config : ImagBehavior.Config)
    (dynamics : ImagBehavior.Dynamics State Feat Action Rng)
    (heads : ImagBehavior.Heads Feat)
    (self : ImagBehavior.t) (imag_feat : list Feat)
    (imag_state : list State) (imag_action : list Action)
    (reward actor_ent state_ent : Tensor) (slow : bool) :
  let discount :=
    data (ImagBehavior.target_discount config dynamics heads imag_state reward) in
  data (ImagBehavior.target_value config heads self imag_feat slow) <> [] ->
  exists target weights,
    ImagBehavior._compute_target config dynamics heads self imag_feat imag_state
                                 imag_action reward actor_ent state_ent slow
    = Ok (target, weights)
    /\ requires_grad weights = false
    /\ length (data weights) = length discount
    /\ (discount <> [] -> nth 0 (data weights) 0 = 1)
    /\ (forall t : nat, (t < length discount)%nat ->
          nth t (data weights) 0 = product (firstn t discount))
    /\ ((forall v, In v discount -> 0 < v < 1) ->
        forall t : nat, (S t < length discount)%nat ->
          nth (S t) (data weights) 0 <= nth t (data weights) 0).
Proof.
  intros discount Hne.
  do 2 eexists. split; [apply compute_target_returns; exact Hne |].
  cbn [data requires_grad]. fold discount.
  split; [reflexivity | split; [apply weights_of_length | split; [| split]]].
  - intros Hd. rewrite weights_of_nth; [reflexivity |].
    destruct discount; [congruence | simpl; lia].
  - intros t Ht. now apply weights_of_nth.
  - intros Hd t Ht. now apply weights_of_decreasing.
Qed.

(* ------------------------------------------------------------------ *)
(** ** Lambda-return targets *)

Lemma hd_nth_app (l : list R) (b : R) : hd b l = nth 0 (l ++ [b]) 0.
Proof. destruct l; reflexivity. Qed.

Lemma lambda_return_length (r v d : list R) (b lam : R) :
  length v = length r -> length d = length r ->
  length (Tools.lambda_return r v d b lam) = length r.
Proof.
  revert v d. induction r as [| r0 r IH]; intros [| v0 v] [| d0 d] Hv Hd;
    simpl in *; try discriminate; try reflexivity.
  rewrite IH by lia. reflexivity.
Qed.

(** The recursion of the spec, read on the sequences extended by the
    bootstrap value. *)
Lemma lambda_return_nth (r v d : list R) (b lam : R) (t : nat) :
  length v = length r -> length d = length r -> (t < length r)%nat ->
  nth t (Tools.lambda_return r v d b lam) 0
  = nth t r 0
    + nth t d 0 * ((1 - lam) * nth (S t) (v ++ [b]) 0
                   + lam * nth (S t) (Tools.lambda_return r v d b lam ++ [b]) 0).
Proof.
  revert v d t. induction r as [| r0 r IH]; intros [| v0 v] [| d0 d] t Hv Hd Ht;
    simpl in Hv, Hd, Ht; try discriminate; try lia.
  cbn [Tools.lambda_return].
  destruct t as [| t].
  - cbn [nth app]. now rewrite !hd_nth_app.
  - cbn [nth app]. apply IH; lia.
Qed.

Lemma removelast_length (l : list R) (n : nat) :
  length l = S n -> length (removelast l) = n.
Proof.
  intros Hl.
  assert (Hne : l <> []) by (destruct l; [discriminate | congruence]).
  pose proof (app_removelast_last 0 Hne) as Happ.
  apply (f_equal (@length R)) in Happ.
  rewrite length_app in Happ. simpl in Happ. lia.
Qed.

Lemma removelast_nth (l : list R) (n t : nat) :
  length l = S n -> (t < n)%nat -> nth t (removelast l) 0 = nth t l 0.
Proof.
  intros Hl Ht.
  assert (Hne : l <> []) by (destruct l; [discriminate | congruence]).
  pose proof (app_removelast_last 0 Hne) as Happ.
  rewrite Happ at 2. rewrite app_nth1; [reflexivity |].
  rewrite (removelast_length l n Hl). exact Ht.
Qed.

Lemma removelast_app_last_nth (l : list R) (n t : nat) :
  length l = S n -> nth t (removelast l ++ [last l 0]) 0 = nth t l 0.
Proof.
  intros Hl.
  assert (Hne : l <> []) by (destruct l; [discriminate | congruence]).
  now rewrite <- (app_removelast_last 0 Hne).
Qed.

Lemma last_nth_length (l : list R) (n : nat) :
  length l = S n -> last l 0 = nth n l 0.
Proof.
  intros Hl.
  rewrite <- (removelast_app_last_nth l n n Hl).
  rewrite app_nth2; rewrite (removelast_length l n Hl); [| lia].
  now rewrite Nat.sub_diag.
Qed.

(** For sequences of H + 1 entries the target of _compute_target has H
    entries and satisfies the backward recursion
    return[t] = reward[t] + discount[t] * ((1 - lambda) * value[t+1]
    + lambda * return[t+1]), where return[H] is the bootstrap value
    value[H]. *)
Lemma compute_target_lambda_return {State Feat Action Rng : Type}
    (config : ImagBehavior.Config)
    (dynamics : ImagBehavior.Dynamics State Feat Action Rng)
    (heads : ImagBehavior.Heads Feat)
    (self : ImagBehavior.t) (imag_feat : list Feat)
    (imag_state : list State) (imag_action : list Action)
    (reward actor_ent state_ent : Tensor) (slow : bool) (H : nat) :
  let reward' :=
    data (ImagBehavior.target_reward config reward actor_ent state_ent) in
  let value := data (ImagBehavior.target_value config heads self imag_feat slow) in
  let discount :=
    data (ImagBehavior.target_discount config dynamics heads imag_state reward) in
  let lam := ImagBehavior.discount_lambda config in
  let bootstrap := nth H value 0 in
  length reward' = S H -> length value = S H -> length discount = S H ->
  exists target weights,
    ImagBehavior._compute_target config dynamics heads self imag_feat imag_state
                                 imag_action reward actor_ent state_ent slow
    = Ok (target, weights)
    /\ length target = H
    /\ (forall t : nat, (t < H)%nat ->
          nth t target 0
          = nth t reward' 0
            + nth t discount 0
              * ((1 - lam) * nth (S t) value 0
                 + lam * nth (S t) (target ++ [bootstrap]) 0))
    /\ (H = 1%nat ->
        target = [nth 0 reward' 0 + nth 0 discount 0 * bootstrap]).
Proof.
  intros reward' value discount lam bootstrap Hr Hv Hd.
  assert (Hne : value <> []) by (destruct value; [discriminate | congruence]).
  do 2 eexists. split; [apply compute_target_returns; exact Hne |].
  fold reward'. fold value. fold discount. fold lam.
  set (r := removelast reward'). set (v := removelast value).
  set (d := removelast discount). set (b := last value 0).
  assert (Hlr : length r = H) by (apply removelast_length; exact Hr).
  assert (Hlv : length v = length r)
    by (rewrite Hlr; apply removelast_length; exact Hv).
  assert (Hld : length d = length r)
    by (rewrite Hlr; apply removelast_length; exact Hd).
  assert (Hb : b = bootstrap) by (apply last_nth_length; exact Hv).
  assert (Hlen : length (Tools.lambda_return r v d b lam) = H).
  { rewrite lambda_return_length; assumption. }
  assert (Hrec : forall t : nat, (t < H)%nat ->
            nth t (Tools.lambda_return r v d b lam) 0
            = nth t reward' 0
              + nth t discount 0
                * ((1 - lam) * nth (S t) value 0
                   + lam * nth (S t) (Tools.lambda_return r v d b lam
                                      ++ [bootstrap]) 0)).
  { intros t Ht.
    rewrite lambda_return_nth by (assumption || lia).
    unfold r at 1, d at 1, v at 1, b at 1.
    rewrite (removelast_nth reward' H t Hr Ht).
    rewrite (removelast_nth discount H t Hd Ht).
    rewrite (removelast_app_last_nth value H (S t) Hv).
    rewrite Hb. reflexivity. }
  split; [exact Hlen | split; [exact Hrec |]].
  intros H1.
  assert (H0 : (0 < H)%nat) by lia.
  specialize (Hrec 0%nat H0).
  destruct (Tools.lambda_return r v d b lam) as [| x [| y l]];
    simpl in Hlen; try lia.
  cbn [nth app] in Hrec. rewrite Hrec. f_equal.
  unfold bootstrap. rewrite H1. lra.
Qed.

Lemma compute_target_lambda_return_witness :
  exists target weights,
    ImagBehavior._compute_target
      Examples.behaviour_config Examples.dynamics Examples.heads Examples.critic
      [0; 1]%nat [0; 1]%nat [0; 1]%nat
      (of_array [7; 7]) (of_array [0; 0]) (of_array [0; 0]) false
    = Ok (target, weights)
    /\ length target = 1%nat.
Proof.
  destruct (compute_target_lambda_return
              Examples.behaviour_config Examples.dynamics Examples.heads
              Examples.critic [0; 1]%nat [0; 1]%nat [0; 1]%nat
              (of_array [7; 7]) (of_array [0; 0]) (of_array [0; 0]) false 1
              eq_refl eq_refl eq_refl)
    as (target & weights & Hcall & Hlen & _).
  exists target, weights. split; [exact Hcall | exact Hlen].
Defined.

Lemma compute_target_weights_witness :
  exists target weights,
    ImagBehavior._compute_target
      Examples.behaviour_config Examples.dynamics Examples.heads Examples.critic
      [0; 1; 2]%nat [0; 1; 2]%nat [0; 1; 2]%nat
      (of_array [7; 7; 7]) (of_array [0; 0; 0]) (of_array [0; 0; 0]) true
    = Ok (target, weights)
    /\ requires_grad weights = false
    /\ length (data weights) = 3%nat.
Proof.
  assert (Hne : data (ImagBehavior.target_value
                        Examples.behaviour_config Examples.heads Examples.critic
                        [0; 1; 2]%nat true) <> [])
    by (simpl; discriminate).
  destruct (compute_target_weights
              Examples.behaviour_config Examples.dynamics Examples.heads
              Examples.critic [0; 1; 2]%nat [0; 1; 2]%nat [0; 1; 2]%nat
              (of_array [7; 7; 7]) (of_array [0; 0; 0]) (of_array [0; 0; 0])
              true Hne)
    as (target & weights & Hcall & Hgrad & Hlen & _).
  exists target, weights. split; [exact Hcall | split; [exact Hgrad | exact Hlen]].
Defined.

Lemma update_slow_target_periodic_witness :
  exists self',
    ImagBehavior.update_slow_target_times Examples.behaviour_config 2
                                          Examples.critic = Ok self'
    /\ ImagBehavior._slow_value self' = [[1; 2]]
    /\ ImagBehavior._updates self' = 2%Z.
Proof.
  assert (Hen : ImagBehavior.slow_value_target Examples.behaviour_config
                || ImagBehavior.slow_actor_target Examples.behaviour_config
                = true) by reflexivity.
  assert (Hk : (0 < ImagBehavior.slow_target_update Examples.behaviour_config)%Z)
    by (simpl; lia).
  assert (Hshape : ImagBehavior.same_shape
                     (ImagBehavior.value Examples.critic)
                     (ImagBehavior._slow_value Examples.critic))
    by (repeat constructor).
  destruct (update_slow_target_periodic Examples.behaviour_config Examples.critic
              Hen Hk Hshape) as (_ & _ & Hcopy).
  apply Hcopy; reflexivity.
Defined.

(* ------------------------------------------------------------------ *)
(** ** Imagination rollout *)

Lemma nth_error_removelast {A : Type} (l : list A) (t : nat) :
  (S t < length l)%nat -> nth_error (removelast l) t = nth_error l t.
Proof.
  revert t. induction l as [| a l IH]; intros t Ht; simpl in Ht; [lia |].
  destruct l as [| b l]; [simpl in Ht; lia |].
  change (removelast (a :: b :: l)) with (a :: removelast (b :: l)).
  destruct t as [| t]; [reflexivity |].
  simpl nth_error. apply IH. simpl. simpl in Ht. lia.
Qed.

Lemma removelast_cons_length {A : Type} (a : A) (l : list A) :
  length (a :: removelast l) = Nat.max 1 (length l).
Proof.
  induction l as [| b l IH]; [reflexivity |].
  destruct l as [| c l]; [reflexivity |].
  change (removelast (b :: c :: l)) with (b :: removelast (c :: l)).
  simpl length in *. lia.
Qed.

Section Imagination.

Context {State Feat Action Rng : Type}.
Variable config : ImagBehavior.Config.
Variable dynamics : ImagBehavior.Dynamics State Feat Action Rng.
Variable self : ImagBehavior.t.
Variable policy : Feat -> ImagBehavior.ActionDist Action Rng.

(** What the scan over [step] accumulates from the carry [(s, f, a)]:
    one output per input; the feature at position t belongs to the state
    the step started from, the action is sampled there, and the successor
    is the prior step under that action. *)
Lemma static_scan_step (inputs : list nat) :
  forall (s : State) (f : Feat) (a : Action) (g : Rng)
         (outputs : list (State * Feat * Action)) (g' : Rng),
    Tools.static_scan (ImagBehavior.step config dynamics self policy)
                      inputs (s, f, a) g = (outputs, g') ->
    length outputs = length inputs
    /\ forall t : nat, (t < length inputs)%nat ->
         exists (st : State) (act : Action) (gs gi : Rng),
           nth_error (s :: map (fun o => fst (fst o)) outputs) t = Some st
           /\ nth_error (map (fun o => snd (fst o)) outputs) t
              = Some (ImagBehavior.get_feat dynamics st)
           /\ nth_error (map (fun o => snd o) outputs) t = Some act
           /\ act = fst (ImagBehavior.sample
                           (policy (if ImagBehavior._stop_grad_actor self
                                    then ImagBehavior.detach_feat dynamics
                                           (ImagBehavior.get_feat dynamics st)
                                    else ImagBehavior.get_feat dynamics st)) gs)
           /\ nth_error (s :: map (fun o => fst (fst o)) outputs) (S t)
              = Some (fst (ImagBehavior.img_step dynamics st act
                             (ImagBehavior.imag_sample config) gi)).
Proof.
  induction inputs as [| i inputs IH]; intros s f a g outputs g' Hscan.
  - simpl in Hscan. injection Hscan as <- <-. split; [reflexivity |].
    intros t Ht. simpl in Ht. lia.
  - cbn [Tools.static_scan] in Hscan.
    unfold ImagBehavior.step at 1 in Hscan.
    set (inp := if ImagBehavior._stop_grad_actor self
                then ImagBehavior.detach_feat dynamics
                       (ImagBehavior.get_feat dynamics s)
                else ImagBehavior.get_feat dynamics s) in *.
    destruct (ImagBehavior.sample (policy inp) g) as [act g1] eqn:Hsample.
    destruct (ImagBehavior.img_step dynamics s act
                (ImagBehavior.imag_sample config) g1) as [succ g2] eqn:Hstep.
    destruct (Tools.static_scan (ImagBehavior.step config dynamics self policy)
                inputs (succ, ImagBehavior.get_feat dynamics s, act) g2)
      as [outputs' g3] eqn:Hrest.
    injection Hscan as <- <-.
    destruct (IH _ _ _ _ _ _ Hrest) as [Hlen Hat].
    split; [simpl; now rewrite Hlen |].
    intros [| t] Ht.
    + exists s, act, g, g1. cbn [map nth_error fst snd].
      repeat split; try reflexivity.
      * fold inp. now rewrite Hsample.
      * now rewrite Hstep.
    + simpl in Ht. destruct (Hat t) as (st & act' & gs & gi & H1 & H2 & H3 & H4 & H5);
        [lia |].
      exists st, act', gs, gi. cbn [map nth_error fst snd].
      repeat split; assumption.
Qed.

End Imagination.

Lemma shifted_states_nth_error {A : Type} (a : A) (l : list A) (t : nat) :
  (t < length l)%nat ->
  nth_error (a :: removelast l) t = nth_error (a :: l) t.
Proof.
  intros Ht. destruct l as [| b l]; [simpl in Ht; lia |].
  change (a :: removelast (b :: l)) with (removelast (a :: b :: l)).
  apply nth_error_removelast. simpl. simpl in Ht. lia.
Qed.

(** C1 (amended). For every starting state and every horizon h >= 1 (and
    no action repeats), _imagine returns feature, state and action
    sequences of length h each; states[0] is the flattened initial state;
    at every position the feature is the feature of the state and the
    action is sampled from the policy there; and for t > 0, states[t] is
    the prior-dynamics successor of states[t-1] under actions[t-1]. *)
Theorem imagine_rollout {State Feat Action Rng : Type}
    (config : ImagBehavior.Config)
    (dynamics : ImagBehavior.Dynamics State Feat Action Rng)
    (self : ImagBehavior.t) (start : State)
    (policy : Feat -> ImagBehavior.ActionDist Action Rng)
    (horizon : nat) (repeats : option Z) (g : Rng) :
  (1 <= horizon)%nat ->
  truthy repeats = false ->
  exists feats states actions g',
    ImagBehavior._imagine config dynamics self start policy horizon repeats g
    = Ok ((feats, states, actions), g')
    /\ length feats = horizon
    /\ length states = horizon
    /\ length actions = horizon
    /\ nth_error states 0 = Some (ImagBehavior.flatten dynamics start)
    /\ (forall t : nat, (t < horizon)%nat ->
          exists (st : State) (act : Action) (gs : Rng),
            nth_error states t = Some st
            /\ nth_error feats t = Some (ImagBehavior.get_feat dynamics st)
            /\ nth_error actions t = Some act
            /\ act = fst (ImagBehavior.sample
                            (policy (if ImagBehavior._stop_grad_actor self
                                     then ImagBehavior.detach_feat dynamics
                                            (ImagBehavior.get_feat dynamics st)
                                     else ImagBehavior.get_feat dynamics st)) gs))
    /\ (forall t : nat, (0 < t < horizon)%nat ->
          exists (prev : State) (act : Action) (gi : Rng),
            nth_error states (t - 1) = Some prev
            /\ nth_error actions (t - 1) = Some act
            /\ nth_error states t
               = Some (fst (ImagBehavior.img_step dynamics prev act
                              (ImagBehavior.imag_sample config) gi))).
Proof.
  intros Hh Hrep. unfold ImagBehavior._imagine. rewrite Hrep.
  set (start' := ImagBehavior.flatten dynamics start).
  set (feat0 := ImagBehavior.zero_feat dynamics
                  (ImagBehavior.get_feat dynamics start')).
  destruct (Tools.static_scan (ImagBehavior.step config dynamics self policy)
              (seq 0 horizon) (start', feat0, ImagBehavior.mode (policy feat0)) g)
    as [outputs g'] eqn:Hscan.
  destruct (static_scan_step config dynamics self policy _ _ _ _ _ _ _ Hscan)
    as [Hlen Hat].
  rewrite length_seq in Hlen, Hat.
  set (succ := map (fun o => fst (fst o)) outputs) in *.
  assert (Hsucc : length succ = horizon) by (unfold succ; now rewrite length_map).
  do 4 eexists. split; [reflexivity |].
  split; [now rewrite length_map |].
  split; [rewrite removelast_cons_length, Hsucc; lia |].
  split; [now rewrite length_map |].
  split; [reflexivity |].
  split.
  - intros t Ht.
    destruct (Hat t Ht) as (st & act & gs & gi & H1 & H2 & H3 & H4 & _).
    exists st, act, gs.
    rewrite shifted_states_nth_error by lia. auto.
  - intros t [Ht0 Ht].
    destruct (Hat (t - 1)%nat) as (st & act & gs & gi & H1 & _ & H3 & _ & H5);
      [lia |].
    replace (S (t - 1)) with t in H5 by lia.
    exists st, act, gi.
    rewrite !shifted_states_nth_error by lia. auto.
Qed.

Lemma imagine_rollout_witness :
  exists feats states actions g',
    ImagBehavior._imagine Examples.behaviour_config Examples.dynamics
                          Examples.critic 5%nat Examples.policy 3 None 0%nat
    = Ok ((feats, states, actions), g')
    /\ length feats = 3%nat
    /\ length states = 3%nat
    /\ length actions = 3%nat.
Proof.
  assert (Hh : (1 <= 3)%nat) by lia.
  destruct (imagine_rollout Examples.behaviour_config Examples.dynamics
              Examples.critic 5%nat Examples.policy 3 None 0%nat Hh eq_refl)
    as (feats & states & actions & g' & Hcall & Hf & Hs & Ha & _).
  exists feats, states, actions, g'. auto.
Defined.

(** C1, as stated, fails: with horizon 1 the three sequences have one
    entry each, not two. *)
Lemma imagine_horizon_one_length :
  ImagBehavior._imagine Examples.behaviour_config Examples.dynamics
                        Examples.critic 5%nat Examples.policy 1 None 0%nat
  = Ok (([5%nat], [5%nat], [5%nat]), 2%nat)
  /\ length [5%nat] <> (1 + 1)%nat.
Proof.
  split; [reflexivity | discriminate].
Qed.

(* ------------------------------------------------------------------ *)
(** ** World model *)

Lemma sum_cons (a : R) (l : list R) : sum (a :: l) = a + sum l.
Proof.
  unfold sum. simpl.
  assert (H : forall (m : list R) (x y : R),
             fold_left Rplus m (x + y) = x + fold_left Rplus m y).
  { induction m as [| b m IH]; intros x y; simpl; [reflexivity |].
    rewrite <- IH. f_equal. lra. }
  replace (0 + a) with (a + 0) by lra. apply H.
Qed.

Lemma sum_nil : sum [] = 0.
Proof. reflexivity. Qed.

(** C3. For a batch that preprocess accepts and that holds the data of
    every head, the loss that _train hands to the optimiser is the sum
    over the heads image, reward and (when configured) discount of the
    negated mean log-likelihood of the batch data under the head's
    prediction, times the scale of the head (reward_scale, discount_scale,
    and 1 for the image head, which has no configured scale), plus the KL
    loss of the dynamics. *)
Theorem train_model_loss {Sched Latent : Type}
    (config : WorldModel.Config Sched) (nets : WorldModel.Nets Sched Latent)
    (step : Z) (obs : WorldModel.Obs) (data : WorldModel.Data) :
  WorldModel.preprocess config obs = Ok data ->
  (WorldModel.pred_discount config = true ->
   WorldModel.discount_entry data <> None) ->
  let embed := WorldModel.encoder nets data in
  let post := fst (WorldModel.observe nets embed (WorldModel.action data)) in
  let prior := snd (WorldModel.observe nets embed (WorldModel.action data)) in
  let kl_loss :=
    fst (fst (fst (WorldModel.kl_loss nets post prior
                     (WorldModel.kl_forward config)
                     (WorldModel.schedule nets (WorldModel.kl_free config) step)
                     (WorldModel.schedule nets (WorldModel.kl_lscale config) step)
                     (WorldModel.schedule nets (WorldModel.kl_rscale config) step)))) in
  let feat name :=
    if existsb (String.eqb name) (WorldModel.grad_heads config)
    then WorldModel.get_feat nets post
    else detach (WorldModel.get_feat nets post) in
  let nll head name target :=
    - mean (WorldModel.log_prob (head (feat name)) target) in
  exists out,
    WorldModel._train config nets step obs = Ok out
    /\ WorldModel.model_loss out
       = nll (WorldModel.image_head nets) "image" (WorldModel.image data) * 1
         + nll (WorldModel.reward_head nets) "reward" (WorldModel.reward data)
           * WorldModel.reward_scale config
         + match WorldModel.pred_discount config, WorldModel.discount_entry data with
           | true, Some d =>
               nll (WorldModel.discount_head nets) "discount" d
               * WorldModel.discount_scale config
           | _, _ => 0
           end
         + kl_loss
    /\ map fst (WorldModel.losses out)
       = map fst (WorldModel.heads config nets).
Proof.
  intros Hpre Hdisc embed post prior kl_loss feat nll.
  subst nll feat kl_loss prior post.
  unfold WorldModel._train. rewrite Hpre. cbn [bind].
  fold embed.
  destruct (WorldModel.observe nets embed (WorldModel.action data))
    as [post prior].
  cbn [fst snd].
  destruct (WorldModel.kl_loss nets post prior _ _ _ _)
    as [[[kl_loss kl_value] loss_lhs] loss_rhs].
  cbn [fst].
  unfold WorldModel.heads.
  destruct (WorldModel.pred_discount config) eqn:Hpd.
  - destruct (WorldModel.discount_entry data) as [d |] eqn:Hd;
      [| exfalso; now apply Hdisc].
    cbn [app WorldModel.head_losses].
    unfold WorldModel.getitem. cbn [String.eqb Ascii.eqb Bool.eqb].
    rewrite Hd. cbn [bind].
    eexists. split; [reflexivity |].
    cbn [WorldModel.model_loss WorldModel.losses dict_values map fst snd].
    split; [| reflexivity].
    rewrite !sum_cons, sum_nil.
    unfold WorldModel._scales.
    cbn [dict_get String.eqb Ascii.eqb Bool.eqb]. lra.
  - cbn [app WorldModel.head_losses].
    unfold WorldModel.getitem. cbn [String.eqb Ascii.eqb Bool.eqb bind].
    eexists. split; [reflexivity |].
    cbn [WorldModel.model_loss WorldModel.losses dict_values map fst snd].
    split; [| reflexivity].
    rewrite !sum_cons, sum_nil.
    unfold WorldModel._scales.
    cbn [dict_get String.eqb Ascii.eqb Bool.eqb]. lra.
Qed.

Lemma train_model_loss_witness :
  exists out,
    WorldModel._train Examples.world_config Examples.nets 0 Examples.obs = Ok out
    /\ map fst (WorldModel.losses out) = ["image"; "reward"; "discount"].
Proof.
  assert (Hdisc : WorldModel.pred_discount Examples.world_config = true ->
                  WorldModel.discount_entry
                    {| WorldModel.action := of_array [0; 1];
                       WorldModel.image := of_array [2; 4];
                       WorldModel.reward := of_array [1; 3];
                       WorldModel.discount_entry :=
                         Some (of_array (map (fun v => v * 1) [1; 1])) |}
                  <> None)
    by (intros _; discriminate).
  destruct (train_model_loss Examples.world_config Examples.nets 0 Examples.obs
              _ eq_refl Hdisc) as (out & Hcall & _ & Hnames).
  exists out. split; [exact Hcall | exact Hnames].
Defined.

(** What the unknown-transform branches of preprocess raise: the call of
    the constant NotImplemented fails with a TypeError, whichever of the
    two transform names is the unknown one. *)
Lemma preprocess_unknown_transform_error {Sched : Type}
    (config : WorldModel.Config Sched) (obs : WorldModel.Obs) :
  recognised_obs_trans (WorldModel.obs_trans config) = false
  \/ recognised_reward_trans (WorldModel.reward_trans config) = false ->
  WorldModel.preprocess config obs
  = Raise (TypeError "'NotImplementedType' object is not callable").
Proof.
  unfold recognised_obs_trans, recognised_reward_trans, WorldModel.preprocess.
  intros [H | H].
  - apply orb_false_elim in H as [H H3]. apply orb_false_elim in H as [H1 H2].
    rewrite H1, H2, H3. reflexivity.
  - apply orb_false_elim in H as [H H3]. apply orb_false_elim in H as [H1 H2].
    rewrite H1, H2, H3.
    destruct (WorldModel.obs_trans config =? "normalize")%string;
      [reflexivity |].
    destruct (WorldModel.obs_trans config =? "identity")%string;
      [reflexivity |].
    destruct (WorldModel.obs_trans config =? "symlog")%string; reflexivity.
Qed.

(** C4 (amended). Whenever the configured observation transform or reward
    transform is not one that preprocess knows, preprocess raises; and
    whenever the repeats argument of _imagine is true as a condition (an
    integer other than 0), _imagine raises.  Neither has a fallback. *)
Theorem unknown_configuration_raises
    {Sched State Feat Action Rng : Type}
    (config : WorldModel.Config Sched) (obs : WorldModel.Obs)
    (bconfig : ImagBehavior.Config)
    (dynamics : ImagBehavior.Dynamics State Feat Action Rng)
    (self : ImagBehavior.t) (start : State)
    (policy : Feat -> ImagBehavior.ActionDist Action Rng)
    (horizon : nat) (repeats : option Z) (g : Rng) :
  (recognised_obs_trans (WorldModel.obs_trans config) = false
   \/ recognised_reward_trans (WorldModel.reward_trans config) = false ->
   raised (WorldModel.preprocess config obs) = true)
  /\ (truthy repeats = true ->
      raised (ImagBehavior._imagine bconfig dynamics self start policy
                                    horizon repeats g) = true).
Proof.
  split.
  - intros H. now rewrite (preprocess_unknown_transform_error config obs H).
  - intros H. unfold ImagBehavior._imagine. now rewrite H.
Qed.

Lemma unknown_configuration_raises_witness :
  raised (WorldModel.preprocess Examples.unknown_obs_config Examples.obs) = true
  /\ raised (WorldModel.preprocess Examples.unknown_reward_config Examples.obs)
     = true
  /\ raised (ImagBehavior._imagine Examples.behaviour_config Examples.dynamics
               Examples.critic 5%nat Examples.policy 1 (Some 2%Z) 0%nat) = true.
Proof.
  destruct (unknown_configuration_raises
              Examples.unknown_obs_config Examples.obs
              Examples.behaviour_config Examples.dynamics Examples.critic
              5%nat Examples.policy 1 (Some 2%Z) 0%nat) as [Hobs Hrep].
  destruct (unknown_configuration_raises
              Examples.unknown_reward_config Examples.obs
              Examples.behaviour_config Examples.dynamics Examples.critic
              5%nat Examples.policy 1 (Some 2%Z) 0%nat) as [Hrew _].
  split; [apply Hobs; left; reflexivity |].
  split; [apply Hrew; right; reflexivity | apply Hrep; reflexivity].
Defined.

(** C4, as stated, fails: the repeats argument 0 is not None, and
    _imagine returns the rollout. *)
Lemma imagine_repeats_zero_returns :
  Some 0%Z <> None
  /\ ImagBehavior._imagine Examples.behaviour_config Examples.dynamics
       Examples.critic 5%nat Examples.policy 1 (Some 0%Z) 0%nat
     = Ok (([5%nat], [5%nat], [5%nat]), 2%nat).
Proof.
  split; [discriminate | reflexivity].
Qed.

(** C10. With the observation transform "identity", video_pred raises; and
    when the reward transform is one that preprocess knows, preprocess
    accepts the batch and what video_pred raises is the unbound-variable
    error for [truth]. *)
Theorem video_pred_identity_unbound {Sched Latent : Type}
    (config : WorldModel.Config Sched) (nets : WorldModel.Nets Sched Latent)
    (obs : WorldModel.Obs) :
  WorldModel.obs_trans config = "identity" ->
  raised (WorldModel.video_pred config nets obs) = true
  /\ (recognised_reward_trans (WorldModel.reward_trans config) = true ->
      (exists data, WorldModel.preprocess config obs = Ok data)
      /\ WorldModel.video_pred config nets obs
         = Raise (UnboundLocalError "truth")).
Proof.
  intros Hobs.
  assert (Hpre : forall data,
             WorldModel.preprocess config obs = Ok data ->
             WorldModel.video_pred config nets obs
             = Raise (UnboundLocalError "truth")).
  { intros data Hdata. unfold WorldModel.video_pred.
    rewrite Hdata, Hobs. cbn [bind].
    destruct (WorldModel.observe nets _ _) as [states prior].
    reflexivity. }
  assert (Hcases : (exists data, WorldModel.preprocess config obs = Ok data)
                   \/ recognised_reward_trans (WorldModel.reward_trans config)
                      = false).
  { unfold WorldModel.preprocess, recognised_reward_trans. rewrite Hobs.
    cbn [String.eqb Ascii.eqb Bool.eqb bind].
    destruct (WorldModel.reward_trans config =? "tanh")%string;
      [left; eexists; reflexivity |].
    destruct (WorldModel.reward_trans config =? "identity")%string;
      [left; eexists; reflexivity |].
    destruct (WorldModel.reward_trans config =? "symlog")%string;
      [left; eexists; reflexivity | right; reflexivity]. }
  split.
  - destruct Hcases as [[data Hdata] | Hrew].
    + now rewrite (Hpre data Hdata).
    + unfold WorldModel.video_pred.
      rewrite (preprocess_unknown_transform_error config obs (or_intror Hrew)).
      reflexivity.
  - intros Hrew. destruct Hcases as [[data Hdata] | Hno]; [| congruence].
    split; [now exists data | now apply (Hpre data)].
Qed.

Lemma video_pred_identity_unbound_witness :
  WorldModel.video_pred Examples.world_config Examples.nets Examples.obs
  = Raise (UnboundLocalError "truth").
Proof.
  destruct (video_pred_identity_unbound Examples.world_config Examples.nets
              Examples.obs eq_refl) as [_ H].
  apply H. reflexivity.
Defined.

(* ------------------------------------------------------------------ *)
(** * Further properties of the code *)

(** ** symlog and symexp *)

Lemma odd_increasing (f : R -> R) :
  (forall x, f (- x) = - f x) ->
  (forall x, 0 < x -> 0 < f x) ->
  (forall x y, 0 < x -> x < y -> f x < f y) ->
  forall x y, x < y -> f x < f y.
Proof.
  intros Hodd Hpos Hinc x y Hxy.
  assert (H0 : f 0 = 0).
  { pose proof (Hodd 0) as H. rewrite Ropp_0 in H. lra. }
  assert (Hneg : forall z, z < 0 -> f z < 0).
  { intros z Hz. replace z with (- - z) by lra. rewrite Hodd.
    pose proof (Hpos (- z)). lra. }
  destruct (Rtotal_order x 0) as [Hx | [Hx | Hx]];
    destruct (Rtotal_order y 0) as [Hy | [Hy | Hy]]; try lra.
  - replace x with (- - x) by lra. replace y with (- - y) by lra.
    rewrite (Hodd (- x)), (Hodd (- y)). pose proof (Hinc (- y) (- x)). lra.
  - subst y. rewrite H0. now apply Hneg.
  - pose proof (Hneg x Hx). pose proof (Hpos y Hy). lra.
  - subst x. rewrite H0. now apply Hpos.
  - now apply Hinc.
Qed.

(** X1. symlog and symexp are strictly increasing on the whole real line, so
    they keep the order of rewards and pixel values. *)
Theorem symlog_symexp_increasing (x y : R) :
  x < y -> symlog x < symlog y /\ symexp x < symexp y.
Proof.
  intros Hxy. split.
  - apply (odd_increasing symlog); try assumption.
    + exact symlog_opp.
    + intros z Hz. now destruct (symlog_pos z Hz).
    + intros a b Ha Hab.
      destruct (symlog_pos a Ha) as [-> _].
      destruct (symlog_pos b) as [-> _]; [lra |].
      apply ln_increasing; lra.
  - apply (odd_increasing symexp); try assumption.
    + exact symexp_opp.
    + intros z Hz. now destruct (symexp_pos z Hz).
    + intros a b Ha Hab.
      destruct (symexp_pos a Ha) as [-> _].
      destruct (symexp_pos b) as [-> _]; [lra |].
      pose proof (exp_increasing a b Hab). lra.
Qed.

Lemma symlog_symexp_increasing_witness :
  symlog 1 < symlog 2 /\ symexp 1 < symexp 2.
Proof.
  apply (symlog_symexp_increasing 1 2). lra.
Defined.

Lemma symlog_le_pos (x : R) : 0 < x -> symlog x < x.
Proof.
  intros H. destruct (symlog_pos x H) as [-> _].
  assert (Hx : x <> 0) by lra.
  pose proof (exp_ineq1 x Hx) as He.
  assert (Hl : ln (x + 1) < ln (exp x)) by (apply ln_increasing; lra).
  now rewrite ln_exp in Hl.
Qed.

Lemma symexp_ge_pos (x : R) : 0 < x -> x < symexp x.
Proof.
  intros H. destruct (symexp_pos x H) as [-> _].
  assert (Hx : x <> 0) by lra.
  pose proof (exp_ineq1 x Hx). lra.
Qed.

(** X2. Over exact arithmetic (the real numbers), symlog compresses and
    symexp expands: the magnitude of symlog x is at
    most that of x, which is at most that of symexp x; and both keep the
    sign of their argument. *)
Theorem symlog_compresses_symexp_expands (x : R) :
  Rabs (symlog x) <= Rabs x <= Rabs (symexp x)
  /\ sign (symlog x) = sign x
  /\ sign (symexp x) = sign x.
Proof.
  destruct (Rtotal_order x 0) as [Hx | [Hx | Hx]].
  - assert (Hn : 0 < - x) by lra.
    pose proof (symlog_le_pos _ Hn) as Hl.
    pose proof (symexp_ge_pos _ Hn) as He.
    destruct (symlog_pos _ Hn) as [_ Hlp].
    destruct (symexp_pos _ Hn) as [_ Hep].
    rewrite symlog_opp in Hl, Hlp. rewrite symexp_opp in He, Hep.
    rewrite !Rabs_left by lra.
    rewrite !sign_neg by lra. repeat split; lra.
  - subst x. rewrite symlog_0, symexp_0, Rabs_R0, sign_zero.
    repeat split; lra.
  - pose proof (symlog_le_pos _ Hx) as Hl.
    pose proof (symexp_ge_pos _ Hx) as He.
    destruct (symlog_pos _ Hx) as [_ Hlp].
    destruct (symexp_pos _ Hx) as [_ Hep].
    rewrite !Rabs_pos_eq by lra.
    rewrite !sign_pos by lra. repeat split; lra.
Qed.

(* ------------------------------------------------------------------ *)
(** ** RewardEMA: the spread and the scale are bounded *)

Lemma insert_sorted (a : R) (l : list R) :
  Sorted Rle l -> Sorted Rle (insert a l).
Proof.
  induction l as [| b l IH]; intros Hs; simpl.
  - repeat constructor.
  - destruct (Rle_dec a b) as [Hab | Hab].
    + constructor; [assumption | constructor; assumption].
    + inversion Hs as [| ? ? Hl Hhd]; subst.
      constructor; [apply IH; assumption |].
      destruct l as [| c l]; simpl.
      * constructor. lra.
      * destruct (Rle_dec a c); constructor; [lra |].
        inversion Hhd; assumption.
Qed.

Lemma sort_sorted (l : list R) : Sorted Rle (sort l).
Proof.
  induction l as [| a l IH]; simpl; [constructor | now apply insert_sorted].
Qed.

Lemma sort_nth_le (l : list R) (i j : nat) :
  (i <= j)%nat -> (j < length l)%nat ->
  nth i (sort l) 0 <= nth j (sort l) 0.
Proof.
  rewrite <- (sort_length l).
  assert (Hss : StronglySorted Rle (sort l)).
  { apply Sorted_StronglySorted; [| apply sort_sorted].
    intros x y z Hxy Hyz. lra. }
  generalize dependent (sort l). intros s Hss. revert i j.
  induction Hss as [| a s Hss IH Hall]; intros i j Hij Hj; simpl in Hj; [lia |].
  destruct j as [| j].
  - replace i with 0%nat by lia. lra.
  - destruct i as [| i].
    + simpl. rewrite Forall_nth in Hall. apply Hall. lia.
    + simpl. apply IH; lia.
Qed.

Lemma floor_nat_spec (r : R) :
  0 <= r ->
  INR (Z.to_nat (floor r)) <= r < INR (Z.to_nat (floor r)) + 1.
Proof.
  intros Hr. unfold floor.
  destruct (base_Int_part r) as [Hle Hgt].
  assert (H0 : (0 <= Int_part r)%Z).
  { assert (H : IZR (-1) < IZR (Int_part r)) by lra.
    apply lt_IZR in H. lia. }
  rewrite INR_IZR_INZ, Z2Nat.id by exact H0. lra.
Qed.

Lemma ceil_nat_spec (r : R) :
  0 <= r ->
  INR (Z.to_nat (ceil r)) - 1 < r <= INR (Z.to_nat (ceil r)).
Proof.
  intros Hr. unfold ceil.
  destruct (base_Int_part (- r)) as [Hle Hgt].
  assert (H0 : (0 <= - Int_part (- r))%Z).
  { assert (H : IZR (Int_part (- r)) < IZR 1) by lra.
    apply lt_IZR in H. lia. }
  rewrite INR_IZR_INZ, Z2Nat.id by exact H0.
  rewrite opp_IZR. lra.
Qed.

Lemma INR_lt_succ (a b : nat) : INR a < INR b + 1 -> (a <= b)%nat.
Proof.
  intros H. rewrite <- S_INR in H. apply INR_lt in H. lia.
Qed.

(** A quantile lies between the sorted entries around its position, and
    quantiles are monotone in the level. *)
Lemma quantile_monotone (input : list R) (q1 q2 v1 v2 : R) :
  0 <= q1 -> q1 <= q2 -> q2 <= 1 ->
  quantile input q1 = Ok v1 -> quantile input q2 = Ok v2 ->
  v1 <= v2.
Proof.
  intros H1 H12 H2 Hv1 Hv2.
  destruct input as [| a l]; [discriminate |].
  unfold quantile in Hv1, Hv2. cbv zeta in Hv1, Hv2.
  injection Hv1 as <-. injection Hv2 as <-.
  change (length l - 0)%nat with (length (a :: l) - 1)%nat.
  change (insert a (sort l)) with (sort (a :: l)).
  set (m := (length (a :: l) - 1)%nat).
  set (s := sort (a :: l)).
  pose proof (pos_INR m) as Hm.
  set (r1 := q1 * INR m). set (r2 := q2 * INR m).
  assert (Hr1 : 0 <= r1) by (unfold r1; nra).
  assert (Hr12 : r1 <= r2) by (unfold r1, r2; nra).
  assert (Hr2 : r2 <= INR m) by (unfold r2; nra).
  destruct (floor_nat_spec r1 Hr1) as [Hf1a Hf1b].
  destruct (ceil_nat_spec r1 Hr1) as [Hc1a Hc1b].
  assert (Hr2' : 0 <= r2) by lra.
  destruct (floor_nat_spec r2 Hr2') as [Hf2a Hf2b].
  destruct (ceil_nat_spec r2 Hr2') as [Hc2a Hc2b].
  assert (Hfl1 : IZR (floor r1) = INR (Z.to_nat (floor r1))).
  { rewrite INR_IZR_INZ, Z2Nat.id; [reflexivity |].
    unfold floor. destruct (base_Int_part r1) as [_ Hgt].
    assert (H : IZR (-1) < IZR (Int_part r1)) by lra.
    apply lt_IZR in H. lia. }
  assert (Hfl2 : IZR (floor r2) = INR (Z.to_nat (floor r2))).
  { rewrite INR_IZR_INZ, Z2Nat.id; [reflexivity |].
    unfold floor. destruct (base_Int_part r2) as [_ Hgt].
    assert (H : IZR (-1) < IZR (Int_part r2)) by lra.
    apply lt_IZR in H. lia. }
  rewrite Hfl1, Hfl2.
  set (f1 := Z.to_nat (floor r1)) in *. set (c1 := Z.to_nat (ceil r1)) in *.
  set (f2 := Z.to_nat (floor r2)) in *. set (c2 := Z.to_nat (ceil r2)) in *.
  assert (Hlen : length (a :: l) = S m) by (unfold m; simpl; lia).
  assert (Hc2m : (c2 <= m)%nat) by (apply INR_lt_succ; lra).
  assert (Hf1c1 : (f1 <= c1)%nat) by (apply INR_lt_succ; lra).
  assert (Hf2c2 : (f2 <= c2)%nat) by (apply INR_lt_succ; lra).
  assert (Hc1f1 : (c1 <= S f1)%nat)
    by (apply INR_lt_succ; rewrite S_INR; lra).
  assert (Hc2f2 : (c2 <= S f2)%nat)
    by (apply INR_lt_succ; rewrite S_INR; lra).
  assert (Hf12 : (f1 <= f2)%nat) by (apply INR_lt_succ; lra).
  assert (Hs1 : nth f1 s 0 <= nth c1 s 0).
  { apply sort_nth_le; [exact Hf1c1 |].
    assert (c1 <= c2 \/ c1 <= S f2)%nat by lia.
    assert (Hc1m : (c1 <= m)%nat) by (apply INR_lt_succ; lra). lia. }
  assert (Hs2 : nth f2 s 0 <= nth c2 s 0)
    by (apply sort_nth_le; [exact Hf2c2 | lia]).
  destruct (le_lt_dec c1 f2) as [Hcf | Hcf].
  - assert (Hmid : nth c1 s 0 <= nth f2 s 0)
      by (apply sort_nth_le; [exact Hcf | lia]).
    nra.
  - assert (Hf : f2 = f1) by lia.
    assert (Hc1 : c1 = S f1) by lia.
    assert (Hc2 : c2 = S f1).
    { assert (Hlt : INR f2 < INR c2).
      { rewrite Hf. rewrite Hc1, S_INR in Hc1a. lra. }
      apply INR_lt in Hlt. lia. }
    rewrite Hf, Hc1, Hc2 in *. nra.
Qed.

Lemma quantile_between (input : list R) (q v lo hi : R) :
  0 <= q <= 1 ->
  (forall w, In w input -> lo <= w <= hi) ->
  quantile input q = Ok v ->
  lo <= v <= hi.
Proof.
  intros Hq Hin Hv.
  destruct input as [| a l]; [discriminate |].
  unfold quantile in Hv. cbv zeta in Hv. injection Hv as <-.
  change (length l - 0)%nat with (length (a :: l) - 1)%nat.
  change (insert a (sort l)) with (sort (a :: l)).
  set (m := (length (a :: l) - 1)%nat).
  set (s := sort (a :: l)).
  set (r := q * INR m).
  pose proof (pos_INR m) as Hm.
  assert (Hr : 0 <= r) by (unfold r; nra).
  destruct (floor_nat_spec r Hr) as [Hfa Hfb].
  assert (Hfl : IZR (floor r) = INR (Z.to_nat (floor r))).
  { rewrite INR_IZR_INZ, Z2Nat.id; [reflexivity |].
    unfold floor. destruct (base_Int_part r) as [_ Hgt].
    assert (H : IZR (-1) < IZR (Int_part r)) by lra.
    apply lt_IZR in H. lia. }
  rewrite Hfl.
  assert (Hnth : forall i, (i <= m)%nat -> lo <= nth i s 0 <= hi).
  { intros i Hi. apply Hin. apply sort_In. apply nth_In.
    unfold s. rewrite sort_length. unfold m in Hi. simpl in *. lia. }
  pose proof (Hnth _ (floor_rank_bounds q m Hq)) as Hb.
  pose proof (Hnth _ (ceil_rank_bounds q m Hq)) as Ha.
  fold r in Hb, Ha.
  set (w := r - INR (Z.to_nat (floor r))) in *.
  assert (Hw : 0 <= w < 1) by (unfold w; lra).
  nra.
Qed.

Lemma reward_ema_spread_between (a lo hi : R) (x : Tensor) :
  data x <> [] ->
  (forall w, In w (data x) -> lo <= w <= hi) ->
  exists s,
    RewardEMA.spread (RewardEMA.__init__ a) x = Ok s /\ 0 <= s <= hi - lo.
Proof.
  intros Hne Hin.
  destruct (reward_ema_spread_nonempty (RewardEMA.__init__ a) x Hne)
    as (q0 & q1 & H0 & H1 & Hsp).
  simpl in H0, H1.
  exists (q1 - q0). split; [exact Hsp |].
  assert (Hmono : q0 <= q1).
  { apply (quantile_monotone (data x) (5 / 100) (95 / 100)); (lra || assumption). }
  assert (Hb0 : lo <= q0 <= hi).
  { apply (quantile_between (data x) (5 / 100)); (lra || assumption). }
  assert (Hb1 : lo <= q1 <= hi).
  { apply (quantile_between (data x) (95 / 100)); (lra || assumption). }
  lra.
Qed.

(** X3. The spread that RewardEMA measures is never negative, and it is at
    most the width of any interval that holds all entries of the input. *)
Theorem reward_ema_spread_bounds (a lo hi : R) (x : Tensor) :
  data x <> [] ->
  (forall w, In w (data x) -> lo <= w <= hi) ->
  exists s,
    RewardEMA.spread (RewardEMA.__init__ a) x = Ok s /\ 0 <= s <= hi - lo.
Proof.
  exact (reward_ema_spread_between a lo hi x).
Qed.

Lemma reward_ema_spread_bounds_witness :
  exists s,
    RewardEMA.spread (RewardEMA.__init__ RewardEMA.default_alpha)
                     (of_array [2; 4]) = Ok s
    /\ 0 <= s <= 4 - 2.
Proof.
  apply (reward_ema_spread_bounds RewardEMA.default_alpha 2 4 (of_array [2; 4])).
  - simpl. discriminate.
  - simpl. intros w [H | [H | []]]; subst w; lra.
Defined.

Lemma reward_ema_run_raise (self : RewardEMA.t) (xs : nat -> Tensor) (n : nat) e :
  RewardEMA.spread (RewardEMA.run self xs n) (xs n) = Raise e ->
  RewardEMA.run self xs (S n) = RewardEMA.run self xs n.
Proof.
  intros H. simpl. unfold RewardEMA.__call__. rewrite H. reflexivity.
Qed.

Lemma reward_ema_never_amplifies_core (self : RewardEMA.t) (x : Tensor) :
  data x <> [] ->
  exists self' y,
    RewardEMA.__call__ self x = Ok (self', y)
    /\ (RewardEMA.scale self' <= 1 -> y = x).
Proof.
  intros Hne.
  destruct (reward_ema_spread_nonempty self x Hne) as (q0 & q1 & _ & _ & Hsp).
  do 2 eexists. split; [apply (reward_ema_call_spread _ _ _ Hsp) |].
  simpl. intros Hle. unfold tmap. rewrite map_div_one.
  - destruct x; reflexivity.
  - unfold clip_min. apply Rmax_right. exact Hle.
Qed.

(** X4. With a smoothing factor between 0 and 1, the scale of a RewardEMA
    started by the constructor stays between 0 and the width of an
    interval that holds every entry it is fed; when that width is at most
    1, no call rescales its input. *)
Theorem reward_ema_scale_bounded (a lo hi : R) (xs : nat -> Tensor) :
  0 <= a <= 1 ->
  lo <= hi ->
  (forall n w, In w (data (xs n)) -> lo <= w <= hi) ->
  let ema := RewardEMA.run (RewardEMA.__init__ a) xs in
  (forall n, 0 <= RewardEMA.scale (ema n) <= hi - lo)
  /\ (hi - lo <= 1 ->
      forall n self' y,
        RewardEMA.__call__ (ema n) (xs n) = Ok (self', y) -> y = xs n).
Proof.
  intros Ha Hlh Hin ema.
  assert (Hstep : forall n,
             RewardEMA.run (RewardEMA.__init__ a) xs (S n)
             = RewardEMA.run (RewardEMA.__init__ a) xs n
             \/ exists s, 0 <= s <= hi - lo
                  /\ RewardEMA.scale (RewardEMA.run (RewardEMA.__init__ a) xs (S n))
                     = a * s + (1 - a)
                       * RewardEMA.scale (RewardEMA.run (RewardEMA.__init__ a) xs n)).
  { intros n.
    destruct (RewardEMA.spread (RewardEMA.__init__ a) (xs n)) as [s | e] eqn:Hsp.
    - right. exists s. split.
      + destruct (data (xs n)) as [| v l] eqn:Hd.
        * unfold RewardEMA.spread in Hsp. simpl in Hsp. rewrite Hd in Hsp.
          discriminate.
        * assert (Hne : data (xs n) <> []) by (rewrite Hd; discriminate).
          destruct (reward_ema_spread_between a lo hi (xs n) Hne (Hin n))
            as (s' & Hs' & Hb).
          rewrite Hsp in Hs'. injection Hs' as <-. exact Hb.
      + apply (reward_ema_run_step _ _ _ _ Hsp).
    - left. apply (reward_ema_run_raise _ _ _ e).
      destruct (reward_ema_run_fields (RewardEMA.__init__ a) xs n) as [_ Hr].
      now rewrite (reward_ema_spread_range _ (RewardEMA.__init__ a)). }
  assert (Hbound : forall n, 0 <= RewardEMA.scale (ema n) <= hi - lo).
  { unfold ema. induction n as [| n IH].
    - simpl. lra.
    - destruct (Hstep n) as [-> | (s & Hs & ->)]; [exact IH | nra]. }
  split; [exact Hbound |].
  intros Hw n self' y Hcall.
  destruct (data (xs n)) as [| v l] eqn:Hd.
  - unfold RewardEMA.__call__, RewardEMA.spread in Hcall. simpl in Hcall.
    rewrite Hd in Hcall. discriminate.
  - assert (Hne : data (xs n) <> []) by (rewrite Hd; discriminate).
    destruct (reward_ema_never_amplifies_core (ema n) (xs n) Hne)
      as (self1 & y1 & Hc1 & Hy1).
    rewrite Hcall in Hc1. injection Hc1 as <- <-.
    apply Hy1.
    assert (Hnext : self' = ema (S n)).
    { unfold ema. simpl. fold ema. now rewrite Hcall. }
    rewrite Hnext. specialize (Hbound (S n)). lra.
Qed.

Lemma reward_ema_scale_bounded_witness :
  0 <= RewardEMA.scale
         (RewardEMA.run (RewardEMA.__init__ RewardEMA.default_alpha)
                        (fun _ => of_array [2; 3]) 4) <= 3 - 2.
Proof.
  assert (Ha : 0 <= RewardEMA.default_alpha <= 1)
    by (unfold RewardEMA.default_alpha; lra).
  assert (Hlh : 2 <= 3) by lra.
  assert (Hin : forall (n : nat) (w : R),
             In w (data ((fun _ : nat => of_array [2; 3]) n)) -> 2 <= w <= 3).
  { intros _ w. simpl. intros [H | [H | []]]; subst w; lra. }
  exact (proj1 (reward_ema_scale_bounded RewardEMA.default_alpha 2 3
                  (fun _ => of_array [2; 3]) Ha Hlh Hin) 4%nat).
Defined.

(* ------------------------------------------------------------------ *)
(** ** WorldModel.__init__ *)

Lemma check_grad_heads_none (names heads : list string) :
  WorldModelInit.check_grad_heads names heads = None
  <-> forall name, In name names -> In name heads.
Proof.
  induction names as [| n names IH]; simpl.
  - split; [intros _ name [] | reflexivity].
  - destruct (existsb (String.eqb n) heads) eqn:Hex.
    + apply existsb_exists in Hex as (h & Hin & Heq).
      apply String.eqb_eq in Heq. subst h.
      rewrite IH. split.
      * intros H name [<- | Hn]; auto.
      * intros H name Hn. apply H. now right.
    + split; [discriminate |].
      intros H. assert (Hin : In n heads) by (apply H; now left).
      assert (Hex' : existsb (String.eqb n) heads = true).
      { apply existsb_exists. exists n. split; [exact Hin |].
        apply String.eqb_refl. }
      congruence.
Qed.

Lemma check_grad_heads_first (l1 l2 heads : list string) (bad : string) :
  (forall name, In name l1 -> In name heads) ->
  ~ In bad heads ->
  WorldModelInit.check_grad_heads (l1 ++ bad :: l2) heads = Some bad.
Proof.
  intros Hl1 Hbad. induction l1 as [| n l1 IH]; simpl.
  - destruct (existsb (String.eqb bad) heads) eqn:Hex; [| reflexivity].
    apply existsb_exists in Hex as (h & Hin & Heq).
    apply String.eqb_eq in Heq. subst h. contradiction.
  - assert (Hex : existsb (String.eqb n) heads = true).
    { apply existsb_exists. exists n. split; [apply Hl1; now left |].
      apply String.eqb_refl. }
    rewrite Hex. apply IH. intros name Hn. apply Hl1. now right.
Qed.

(** X5. The constructor of the world model builds the object exactly when
    the observation size is (64, 64) and every name of grad_heads is one
    of the heads it has built (image, reward, and discount only with
    pred_discount).  Any other size fails in the call of NotImplemented;
    otherwise the first name of grad_heads that is not a head is reported
    by the assertion. *)
Theorem world_model_init_checks (config : WorldModelInit.Config) :
  ((exists self, WorldModelInit.__init__ config = WorldModelInit.Built self)
   <-> WorldModelInit.size config = (64, 64)%Z
       /\ forall name, In name (WorldModelInit.grad_heads config) ->
                       In name (WorldModelInit.heads_of config))
  /\ (WorldModelInit.size config <> (64, 64)%Z ->
      WorldModelInit.__init__ config
      = WorldModelInit.Failed
          (WorldModelInit.Exn
             (TypeError "'NotImplementedType' object is not callable")))
  /\ (forall (l1 l2 : list string) (bad : string),
        WorldModelInit.size config = (64, 64)%Z ->
        WorldModelInit.grad_heads config = l1 ++ bad :: l2 ->
        (forall name, In name l1 -> In name (WorldModelInit.heads_of config)) ->
        ~ In bad (WorldModelInit.heads_of config) ->
        WorldModelInit.__init__ config
        = WorldModelInit.Failed (WorldModelInit.AssertionError bad)).
Proof.
  assert (Hsize : WorldModelInit.size config = (64, 64)%Z
                  <-> ((fst (WorldModelInit.size config) =? 64)
                       && (snd (WorldModelInit.size config) =? 64))%Z = true).
  { destruct (WorldModelInit.size config) as [h w]. simpl.
    rewrite andb_true_iff, !Z.eqb_eq. split.
    - intros H. injection H as -> ->. auto.
    - intros [-> ->]. reflexivity. }
  split; [| split].
  - unfold WorldModelInit.__init__. split.
    + intros [self Hb].
      destruct ((fst (WorldModelInit.size config) =? 64)
                && (snd (WorldModelInit.size config) =? 64))%Z eqn:Hs;
        [| discriminate].
      split; [now apply Hsize |].
      apply check_grad_heads_none.
      destruct (WorldModelInit.check_grad_heads _ _); [discriminate | reflexivity].
    + intros [Hs Hg]. apply Hsize in Hs. rewrite Hs.
      apply check_grad_heads_none in Hg. rewrite Hg. eexists. reflexivity.
  - intros Hs. unfold WorldModelInit.__init__.
    destruct ((fst (WorldModelInit.size config) =? 64)
              && (snd (WorldModelInit.size config) =? 64))%Z eqn:Hb;
      [| reflexivity].
    exfalso. apply Hs. now apply Hsize.
  - intros l1 l2 bad Hs Hg Hl1 Hbad. unfold WorldModelInit.__init__.
    apply Hsize in Hs. rewrite Hs, Hg.
    now rewrite (check_grad_heads_first l1 l2 _ bad Hl1 Hbad).
Qed.

Lemma world_model_init_checks_witness :
  (exists self,
      WorldModelInit.__init__ MoreExamples.init_config
      = WorldModelInit.Built self)
  /\ WorldModelInit.__init__ MoreExamples.init_config_large
     = WorldModelInit.Failed
         (WorldModelInit.Exn
            (TypeError "'NotImplementedType' object is not callable"))
  /\ WorldModelInit.__init__ MoreExamples.init_config_discount
     = WorldModelInit.Failed (WorldModelInit.AssertionError "discount").
Proof.
  split; [| split].
  - apply (proj1 (world_model_init_checks MoreExamples.init_config)).
    split; [reflexivity |].
    simpl. intros name [H | [H | []]]; subst name; auto.
  - apply (proj1 (proj2 (world_model_init_checks MoreExamples.init_config_large))).
    simpl. intros H. discriminate H.
  - apply (proj2 (proj2 (world_model_init_checks MoreExamples.init_config_discount))
             ["image"] ["value"] "discount").
    + reflexivity.
    + reflexivity.
    + simpl. intros name [H | []]. subst name. auto.
    + simpl. intros [H | [H | []]]; discriminate H.
Defined.

(** X6. The embedding size that the constructor derives for 64x64 images: with
    k stride-2 kernels, k at most 6, it is cnn_depth * 2^(11 - k) (so
    128 * cnn_depth for four kernels); with seven or more kernels the
    floor division leaves nothing and the size is 0. *)
Theorem world_model_embed_size (config : WorldModelInit.Config) :
  let k := length (WorldModelInit.encoder_kernels config) in
  ((k <= 6)%nat ->
   WorldModelInit.embed_size_of config
   = IZR (WorldModelInit.cnn_depth config * 2 ^ (11 - Z.of_nat k)))
  /\ ((7 <= k)%nat -> WorldModelInit.embed_size_of config = 0).
Proof.
  intros k. unfold WorldModelInit.embed_size_of. fold k. split.
  - intros Hk.
    assert (Hcases : (k = 0 \/ k = 1 \/ k = 2 \/ k = 3 \/ k = 4 \/ k = 5
                      \/ k = 6)%nat) by lia.
    destruct Hcases as [-> | [-> | [-> | [-> | [-> | [-> | ->]]]]]];
      rewrite !mult_IZR; cbn; unfold Pos.to_nat; simpl; field.
  - intros Hk.
    assert (Hdiv : (64 / 2 ^ Z.of_nat k = 0)%Z).
    { apply Z.div_small. split; [lia |].
      apply Z.lt_le_trans with (2 ^ 7)%Z; [reflexivity |].
      apply Z.pow_le_mono_r; lia. }
    rewrite Hdiv. cbn. lra.
Qed.

Lemma world_model_embed_size_witness :
  WorldModelInit.embed_size_of MoreExamples.init_config = 4096.
Proof.
  destruct (world_model_embed_size MoreExamples.init_config) as [H _].
  rewrite H by (simpl; lia). simpl. lra.
Defined.

(* ------------------------------------------------------------------ *)
(** ** WorldModel.preprocess *)

Lemma tanh_bounded (x : R) : -1 < tanh x < 1.
Proof.
  unfold tanh, sinh, cosh.
  pose proof (exp_pos x) as Ha. pose proof (exp_pos (- x)) as Hb.
  set (a := exp x) in *. set (b := exp (- x)) in *.
  set (s := (a - b) / 2). set (c := (a + b) / 2).
  assert (Hc : 0 < c) by (unfold c; lra).
  assert (Hs : - c < s < c) by (unfold s, c; lra).
  assert (Heq : s = s / c * c) by (field; lra).
  set (t := s / c) in *.
  split; nra.
Qed.

Lemma recognised_obs_trans_cases (name : string) :
  recognised_obs_trans name = true
  <-> name = "normalize" \/ name = "identity" \/ name = "symlog".
Proof.
  unfold recognised_obs_trans.
  rewrite !orb_true_iff, !String.eqb_eq. tauto.
Qed.

Lemma recognised_reward_trans_cases (name : string) :
  recognised_reward_trans name = true
  <-> name = "tanh" \/ name = "identity" \/ name = "symlog".
Proof.
  unfold recognised_reward_trans.
  rewrite !orb_true_iff, !String.eqb_eq. tauto.
Qed.

(** What preprocess returns for recognised transform names. *)
Lemma preprocess_recognised {Sched : Type} (config : WorldModel.Config Sched)
    (obs : WorldModel.Obs) :
  recognised_obs_trans (WorldModel.obs_trans config) = true ->
  recognised_reward_trans (WorldModel.reward_trans config) = true ->
  WorldModel.preprocess config obs
  = Ok {| WorldModel.action := of_array (WorldModel.obs_action obs);
          WorldModel.image :=
            if (WorldModel.obs_trans config =? "normalize")%string
            then tmap (fun v => v / 255 - 5 / 10)
                      (of_array (WorldModel.obs_image obs))
            else if (WorldModel.obs_trans config =? "identity")%string
            then of_array (WorldModel.obs_image obs)
            else tmap symlog (of_array (WorldModel.obs_image obs));
          WorldModel.reward :=
            if (WorldModel.reward_trans config =? "tanh")%string
            then tmap tanh (of_array (WorldModel.obs_reward obs))
            else if (WorldModel.reward_trans config =? "identity")%string
            then of_array (WorldModel.obs_reward obs)
            else tmap symlog (of_array (WorldModel.obs_reward obs));
          WorldModel.discount_entry :=
            match WorldModel.obs_discount obs with
            | Some d =>
                Some (of_array (map (fun v => v * WorldModel.discount config) d))
            | None => None
            end |}.
Proof.
  intros Ho Hr. unfold WorldModel.preprocess.
  apply recognised_obs_trans_cases in Ho.
  apply recognised_reward_trans_cases in Hr.
  destruct Ho as [-> | [-> | ->]]; destruct Hr as [-> | [-> | ->]];
    reflexivity.
Qed.

(** X7. preprocess returns a batch exactly when both transform names are
    recognised; the batch it returns has as many image and reward entries as
    the raw batch, an unchanged action array, a discount entry when and
    only when the raw batch has one, and no tensor that requires a
    gradient. *)
Theorem preprocess_succeeds_iff {Sched : Type}
    (config : WorldModel.Config Sched) (obs : WorldModel.Obs) :
  ((exists data, WorldModel.preprocess config obs = Ok data)
   <-> recognised_obs_trans (WorldModel.obs_trans config) = true
       /\ recognised_reward_trans (WorldModel.reward_trans config) = true)
  /\ (forall data,
        WorldModel.preprocess config obs = Ok data ->
        length (Torch.data (WorldModel.image data))
        = length (WorldModel.obs_image obs)
        /\ length (Torch.data (WorldModel.reward data))
           = length (WorldModel.obs_reward obs)
        /\ WorldModel.action data = of_array (WorldModel.obs_action obs)
        /\ (WorldModel.discount_entry data = None
            <-> WorldModel.obs_discount obs = None)
        /\ requires_grad (WorldModel.image data) = false
        /\ requires_grad (WorldModel.reward data) = false).
Proof.
  assert (Hiff : (exists data, WorldModel.preprocess config obs = Ok data)
                 -> recognised_obs_trans (WorldModel.obs_trans config) = true
                    /\ recognised_reward_trans (WorldModel.reward_trans config)
                       = true).
  { intros [data Hd].
    destruct (recognised_obs_trans (WorldModel.obs_trans config)) eqn:Ho.
    - destruct (recognised_reward_trans (WorldModel.reward_trans config)) eqn:Hr;
        [auto |].
      rewrite (preprocess_unknown_transform_error config obs (or_intror Hr)) in Hd.
      discriminate.
    - rewrite (preprocess_unknown_transform_error config obs (or_introl Ho)) in Hd.
      discriminate. }
  split.
  - split; [exact Hiff |].
    intros [Ho Hr]. eexists. apply (preprocess_recognised config obs Ho Hr).
  - intros d Hd.
    destruct (Hiff (ex_intro _ d Hd)) as [Ho Hr].
    rewrite (preprocess_recognised config obs Ho Hr) in Hd.
    injection Hd as <-. cbn [WorldModel.image WorldModel.reward
                             WorldModel.action WorldModel.discount_entry].
    repeat split.
    + destruct (_ =? "normalize")%string; [simpl; apply length_map |].
      destruct (_ =? "identity")%string; [reflexivity | simpl; apply length_map].
    + destruct (_ =? "tanh")%string; [simpl; apply length_map |].
      destruct (_ =? "identity")%string; [reflexivity | simpl; apply length_map].
    + destruct (WorldModel.obs_discount obs); [discriminate | reflexivity].
    + destruct (WorldModel.obs_discount obs); [discriminate | reflexivity].
    + destruct (_ =? "normalize")%string; [reflexivity |].
      destruct (_ =? "identity")%string; reflexivity.
    + destruct (_ =? "tanh")%string; [reflexivity |].
      destruct (_ =? "identity")%string; reflexivity.
Qed.

Lemma preprocess_succeeds_iff_witness :
  exists data,
    WorldModel.preprocess MoreExamples.normalize_config MoreExamples.obs = Ok data.
Proof.
  apply (proj1 (preprocess_succeeds_iff MoreExamples.normalize_config
                  MoreExamples.obs)).
  split; reflexivity.
Defined.

(** X8. With the transform "normalize", pixel values between 0 and 255 are
    mapped into [-0.5, 0.5]; with the reward transform "tanh", every
    reward of the returned batch lies in [-1, 1]. *)
Theorem preprocess_ranges {Sched : Type}
    (config : WorldModel.Config Sched) (obs : WorldModel.Obs)
    (data : WorldModel.Data) :
  WorldModel.preprocess config obs = Ok data ->
  (WorldModel.obs_trans config = "normalize" ->
   (forall v, In v (WorldModel.obs_image obs) -> 0 <= v <= 255) ->
   forall w, In w (Torch.data (WorldModel.image data)) ->
             - (1 / 2) <= w <= 1 / 2)
  /\ (WorldModel.reward_trans config = "tanh" ->
      forall w, In w (Torch.data (WorldModel.reward data)) -> -1 <= w <= 1).
Proof.
  intros Hd.
  assert (Hrec : recognised_obs_trans (WorldModel.obs_trans config) = true
                 /\ recognised_reward_trans (WorldModel.reward_trans config)
                    = true).
  { destruct (recognised_obs_trans (WorldModel.obs_trans config)) eqn:Ho.
    - destruct (recognised_reward_trans (WorldModel.reward_trans config)) eqn:Hr;
        [auto |].
      rewrite (preprocess_unknown_transform_error config obs (or_intror Hr)) in Hd.
      discriminate.
    - rewrite (preprocess_unknown_transform_error config obs (or_introl Ho)) in Hd.
      discriminate. }
  destruct Hrec as [Ho Hr].
  rewrite (preprocess_recognised config obs Ho Hr) in Hd.
  injection Hd as <-. cbn [WorldModel.image WorldModel.reward]. split.
  - intros Hn Hpix w Hw. rewrite Hn in Hw. simpl in Hw.
    apply in_map_iff in Hw as (v & <- & Hv). apply Hpix in Hv. lra.
  - intros Ht w Hw. rewrite Ht in Hw. simpl in Hw.
    apply in_map_iff in Hw as (v & <- & _).
    pose proof (tanh_bounded v). lra.
Qed.

Lemma preprocess_ranges_witness :
  exists data,
    WorldModel.preprocess MoreExamples.normalize_config MoreExamples.obs = Ok data
    /\ (forall w, In w (Torch.data (WorldModel.image data)) ->
                  - (1 / 2) <= w <= 1 / 2)
    /\ (forall w, In w (Torch.data (WorldModel.reward data)) -> -1 <= w <= 1).
Proof.
  eexists. split; [reflexivity |].
  destruct (preprocess_ranges MoreExamples.normalize_config MoreExamples.obs _
              eq_refl) as [Himg Hrew].
  split.
  - apply Himg; [reflexivity |].
    simpl. intros v [H | [H | []]]; subst v; lra.
  - apply Hrew. reflexivity.
Defined.

(** X9. preprocess scales the discount array of the caller in place: after a
    call that returns, the batch of the caller holds the discounts
    multiplied by config.discount, while its images, rewards and actions
    are untouched.  Preprocessing the same batch a second time therefore
    returns the discounts multiplied by config.discount twice, with the
    same images and rewards as the first call. *)
Theorem preprocess_scales_caller_discount {Sched : Type}
    (config : WorldModel.Config Sched) (obs : WorldModel.Obs) (d : list R) :
  recognised_obs_trans (WorldModel.obs_trans config) = true ->
  recognised_reward_trans (WorldModel.reward_trans config) = true ->
  WorldModel.obs_discount obs = Some d ->
  let c := WorldModel.discount config in
  exists obs1 data1 obs2 data2,
    InPlace.preprocess config obs = (obs1, Ok data1)
    /\ InPlace.preprocess config obs1 = (obs2, Ok data2)
    /\ WorldModel.obs_discount obs1 = Some (map (fun v => v * c) d)
    /\ WorldModel.obs_image obs1 = WorldModel.obs_image obs
    /\ WorldModel.obs_reward obs1 = WorldModel.obs_reward obs
    /\ WorldModel.obs_action obs1 = WorldModel.obs_action obs
    /\ WorldModel.discount_entry data1
       = Some (of_array (map (fun v => v * c) d))
    /\ WorldModel.discount_entry data2
       = Some (of_array (map (fun v => v * c * c) d))
    /\ WorldModel.image data2 = WorldModel.image data1
    /\ WorldModel.reward data2 = WorldModel.reward data1.
Proof.
  intros Ho Hr Hd c. unfold InPlace.preprocess.
  rewrite (preprocess_recognised config obs Ho Hr), Hd.
  do 4 eexists.
  split; [reflexivity |].
  rewrite (preprocess_recognised config _ Ho Hr).
  split; [reflexivity |].
  cbn [WorldModel.obs_discount WorldModel.obs_image WorldModel.obs_reward
       WorldModel.obs_action WorldModel.discount_entry WorldModel.image
       WorldModel.reward].
  repeat split. rewrite map_map. reflexivity.
Qed.

Lemma preprocess_scales_caller_discount_witness :
  exists obs1 data1 obs2 data2,
    InPlace.preprocess MoreExamples.normalize_config MoreExamples.obs
    = (obs1, Ok data1)
    /\ InPlace.preprocess MoreExamples.normalize_config obs1 = (obs2, Ok data2)
    /\ WorldModel.discount_entry data2
       = Some (of_array (map (fun v => v * (1 / 2) * (1 / 2)) [1; 1])).
Proof.
  destruct (preprocess_scales_caller_discount MoreExamples.normalize_config
              MoreExamples.obs [1; 1] eq_refl eq_refl eq_refl)
    as (obs1 & data1 & obs2 & data2 & H1 & H2 & _ & _ & _ & _ & _ & H3 & _).
  exists obs1, data1, obs2, data2. auto.
Defined.

(* ------------------------------------------------------------------ *)
(** ** WorldModel.video_pred and WorldModel._train *)

Lemma symexp_symlog (x : R) : symexp (symlog x) = x.
Proof.
  destruct (Rtotal_order x 0) as [Hn | [Hz | Hp]].
  - replace x with (- - x) at 1 by lra.
    rewrite symlog_opp, symexp_opp, symexp_symlog_pos by lra. lra.
  - subst x. rewrite symlog_0. apply symexp_0.
  - now apply symexp_symlog_pos.
Qed.

Lemma tmap_tmap (f g : R -> R) (x : Tensor) :
  tmap f (tmap g x) = tmap (fun v => f (g v)) x.
Proof.
  unfold tmap. simpl. now rewrite map_map.
Qed.

Lemma tmap_ext (f g : R -> R) (x : Tensor) :
  (forall v, f v = g v) -> tmap f x = tmap g x.
Proof.
  intros H. unfold tmap. f_equal. apply map_ext. exact H.
Qed.

(** X10. video_pred returns a visualisation exactly when the observation
    transform is "normalize" or "symlog" and the reward transform is a
    recognised one; in every other configuration it raises. *)
Theorem video_pred_returns_iff {Sched Latent : Type}
    (config : WorldModel.Config Sched) (nets : WorldModel.Nets Sched Latent)
    (obs : WorldModel.Obs) :
  (exists out, WorldModel.video_pred config nets obs = Ok out)
  <-> (WorldModel.obs_trans config = "normalize"
       \/ WorldModel.obs_trans config = "symlog")
      /\ recognised_reward_trans (WorldModel.reward_trans config) = true.
Proof.
  destruct (recognised_obs_trans (WorldModel.obs_trans config)) eqn:Ho.
  - destruct (recognised_reward_trans (WorldModel.reward_trans config)) eqn:Hr.
    + unfold WorldModel.video_pred.
      rewrite (preprocess_recognised config obs Ho Hr). cbn [bind].
      destruct (WorldModel.observe nets _ _) as [states prior].
      apply recognised_obs_trans_cases in Ho.
      destruct Ho as [Hn | [Hn | Hn]]; rewrite Hn;
        cbn [String.eqb Ascii.eqb Bool.eqb bind].
      * split; [intros _; split; [now left | reflexivity] |].
        intros _. eexists. reflexivity.
      * split; [intros [out Hout]; discriminate |].
        intros [[H | H] _]; discriminate.
      * split; [intros _; split; [now right | reflexivity] |].
        intros _. eexists. reflexivity.
    + unfold WorldModel.video_pred.
      rewrite (preprocess_unknown_transform_error config obs (or_intror Hr)).
      split; [intros [out Hout]; discriminate | intros [_ H]; discriminate].
  - unfold WorldModel.video_pred.
    rewrite (preprocess_unknown_transform_error config obs (or_introl Ho)).
    split; [intros [out Hout]; discriminate |].
    intros [[H | H] _]; rewrite H in Ho; discriminate.
Qed.

(** X11. In both configurations in which video_pred returns, the ground-truth
    panel is the raw image divided by 255: the panel undoes the transform
    that preprocess applied (adding 0.5 back, or symexp after symlog).  The
    error panel is (model - truth + 1) / 2.  Slicing the first six batch
    entries is assumed to commute with element-wise maps. *)
Theorem video_pred_truth {Sched Latent : Type}
    (config : WorldModel.Config Sched) (nets : WorldModel.Nets Sched Latent)
    (obs : WorldModel.Obs) :
  (forall f x, WorldModel.take6 nets (tmap f x)
               = tmap f (WorldModel.take6 nets x)) ->
  WorldModel.obs_trans config = "normalize"
  \/ WorldModel.obs_trans config = "symlog" ->
  recognised_reward_trans (WorldModel.reward_trans config) = true ->
  let truth :=
    tmap (fun v => v / 255)
         (WorldModel.take6 nets (of_array (WorldModel.obs_image obs))) in
  exists model,
    WorldModel.video_pred config nets obs
    = Ok (WorldModel.cat2 nets
            [truth; model;
             tmap (fun v => (v + 1) / 2) (tmap2 Rminus model truth)]).
Proof.
  intros Hcomm Hobs Hr truth.
  assert (Ho : recognised_obs_trans (WorldModel.obs_trans config) = true).
  { apply recognised_obs_trans_cases. tauto. }
  unfold WorldModel.video_pred.
  rewrite (preprocess_recognised config obs Ho Hr). cbn [bind].
  destruct (WorldModel.observe nets _ _) as [states prior].
  destruct Hobs as [Hn | Hn]; rewrite Hn;
    cbn [String.eqb Ascii.eqb Bool.eqb bind WorldModel.image].
  - rewrite Hcomm, tmap_tmap.
    rewrite (tmap_ext _ (fun v => v / 255)) by (intros v; lra).
    eexists. reflexivity.
  - rewrite Hcomm, tmap_tmap.
    rewrite (tmap_ext _ (fun v => v / 255))
      by (intros v; now rewrite symexp_symlog).
    eexists. reflexivity.
Qed.

Lemma video_pred_truth_witness :
  exists model,
    WorldModel.video_pred MoreExamples.normalize_config Examples.nets
                          MoreExamples.obs
    = Ok (WorldModel.cat2 Examples.nets
            [tmap (fun v => v / 255) (of_array [0; 255]); model;
             tmap (fun v => (v + 1) / 2)
                  (tmap2 Rminus model
                         (tmap (fun v => v / 255) (of_array [0; 255])))]).
Proof.
  apply (video_pred_truth MoreExamples.normalize_config Examples.nets
           MoreExamples.obs).
  - intros f x. reflexivity.
  - left. reflexivity.
  - reflexivity.
Defined.

Lemma video_pred_returns_iff_witness :
  exists out,
    WorldModel.video_pred MoreExamples.symlog_config Examples.nets
                          MoreExamples.obs = Ok out.
Proof.
  apply (proj2 (video_pred_returns_iff MoreExamples.symlog_config Examples.nets
                  MoreExamples.obs)).
  split; [right; reflexivity | reflexivity].
Defined.

Lemma detach_detach (x : Tensor) : detach (detach x) = detach x.
Proof. reflexivity. Qed.

(** X12. The training step of the world model returns exactly when both
    transform names are recognised and the batch has a discount entry
    whenever the discount head is configured; with the discount head and
    no discount entry it raises KeyError for the key "discount" after the
    image and reward heads have been evaluated. *)
Theorem train_returns_iff {Sched Latent : Type}
    (config : WorldModel.Config Sched) (nets : WorldModel.Nets Sched Latent)
    (step : Z) (obs : WorldModel.Obs) :
  ((exists out, WorldModel._train config nets step obs = Ok out)
   <-> recognised_obs_trans (WorldModel.obs_trans config) = true
       /\ recognised_reward_trans (WorldModel.reward_trans config) = true
       /\ (WorldModel.pred_discount config = true ->
           WorldModel.obs_discount obs <> None))
  /\ (recognised_obs_trans (WorldModel.obs_trans config) = true ->
      recognised_reward_trans (WorldModel.reward_trans config) = true ->
      WorldModel.pred_discount config = true ->
      WorldModel.obs_discount obs = None ->
      WorldModel._train config nets step obs = Raise (KeyError "discount")).
Proof.
  destruct (recognised_obs_trans (WorldModel.obs_trans config)) eqn:Ho.
  2:{ unfold WorldModel._train.
      rewrite (preprocess_unknown_transform_error config obs (or_introl Ho)).
      split; [| discriminate].
      split; [intros [out H]; discriminate | intros [H _]; discriminate]. }
  destruct (recognised_reward_trans (WorldModel.reward_trans config)) eqn:Hr.
  2:{ unfold WorldModel._train.
      rewrite (preprocess_unknown_transform_error config obs (or_intror Hr)).
      split; [| discriminate].
      split; [intros [out H]; discriminate | intros [_ [H _]]; discriminate]. }
  unfold WorldModel._train.
  rewrite (preprocess_recognised config obs Ho Hr). cbn [bind].
  destruct (WorldModel.observe nets _ _) as [post prior].
  destruct (WorldModel.kl_loss nets post prior _ _ _ _)
    as [[[kl_loss kl_value] loss_lhs] loss_rhs].
  unfold WorldModel.heads.
  destruct (WorldModel.pred_discount config) eqn:Hpd;
    cbn [app WorldModel.head_losses]; unfold WorldModel.getitem;
    cbn [String.eqb Ascii.eqb Bool.eqb bind WorldModel.discount_entry
         WorldModel.image WorldModel.reward].
  - destruct (WorldModel.obs_discount obs) as [d |]; cbn [bind].
    + split; [| discriminate].
      split; [intros _; repeat split; discriminate |].
      intros _. eexists. reflexivity.
    + split; [| reflexivity].
      split; [intros [out H]; discriminate |].
      intros (_ & _ & H). exfalso. now apply H.
  - split; [| discriminate].
    split; [intros _; repeat split; discriminate |].
    intros _. eexists. reflexivity.
Qed.

Lemma train_returns_iff_witness :
  WorldModel._train MoreExamples.normalize_config Examples.nets 0
                    MoreExamples.obs_without_discount
  = Raise (KeyError "discount").
Proof.
  apply (proj2 (train_returns_iff MoreExamples.normalize_config Examples.nets 0
                  MoreExamples.obs_without_discount)); reflexivity.
Defined.

(** X13. A head that is not listed in grad_heads only ever sees the detached
    features: the losses are the same when every such head is replaced by
    the head that detaches its input first. *)
Theorem head_losses_detach_non_grad_heads {Sched Latent : Type}
    (config : WorldModel.Config Sched) (nets : WorldModel.Nets Sched Latent)
    (data : WorldModel.Data) (post : Latent)
    (hs : list (string * (Tensor -> WorldModel.Dist))) :
  WorldModel.head_losses config nets data post hs
  = WorldModel.head_losses config nets data post
      (map (fun nh =>
              (fst nh,
               if existsb (String.eqb (fst nh)) (WorldModel.grad_heads config)
               then snd nh
               else fun feat => snd nh (detach feat)))
           hs).
Proof.
  induction hs as [| [name head] hs IH]; [reflexivity |].
  cbn [map fst snd WorldModel.head_losses].
  rewrite <- IH.
  destruct (existsb (String.eqb name) (WorldModel.grad_heads config));
    [reflexivity |].
  now rewrite detach_detach.
Qed.

(* ------------------------------------------------------------------ *)
(** ** ImagBehavior._compute_target: further properties *)

Lemma product_firstn_constant (c : R) (l : list R) (t : nat) :
  (t <= length l)%nat ->
  product (firstn t (map (fun _ => c) l)) = c ^ t.
Proof.
  revert t. induction l as [| a l IH]; intros t Ht; simpl in Ht.
  - replace t with 0%nat by lia. reflexivity.
  - destruct t as [| t]; [reflexivity |].
    simpl. rewrite IH by lia. reflexivity.
Qed.


(** X14. Without a discount head the discount is the constant config.discount,
    and the weight at position t is config.discount to the power t. *)
Theorem compute_target_constant_discount {State Feat Action Rng : Type}
    (config : ImagBehavior.Config)
    (dynamics : ImagBehavior.Dynamics State Feat Action Rng)
    (heads : ImagBehavior.Heads Feat)
    (self : ImagBehavior.t) (imag_feat : list Feat)
    (imag_state : list State) (imag_action : list Action)
    (reward actor_ent state_ent : Tensor) (slow : bool) :
  ImagBehavior.discount_mean heads = None ->
  data (ImagBehavior.target_value config heads self imag_feat slow) <> [] ->
  exists target weights,
    ImagBehavior._compute_target config dynamics heads self imag_feat imag_state
                                 imag_action reward actor_ent state_ent slow
    = Ok (target, weights)
    /\ length (data weights) = length (data reward)
    /\ forall t : nat, (t < length (data reward))%nat ->
         nth t (data weights) 0 = ImagBehavior.discount config ^ t.
Proof.
  intros Hhead Hne.
  do 2 eexists. split; [apply compute_target_returns; exact Hne |].
  cbn [data].
  assert (Hd : data (ImagBehavior.target_discount config dynamics heads
                       imag_state reward)
               = map (fun _ => ImagBehavior.discount config * 1) (data reward)).
  { unfold ImagBehavior.target_discount. rewrite Hhead.
    simpl. now rewrite map_map. }
  rewrite Hd. split.
  - now rewrite weights_of_length, length_map.
  - intros t Ht.
    rewrite weights_of_nth by (rewrite length_map; exact Ht).
    rewrite product_firstn_constant by lia.
    f_equal. lra.
Qed.

Lemma compute_target_constant_discount_witness :
  exists target weights,
    ImagBehavior._compute_target
      Examples.behaviour_config Examples.dynamics Examples.heads Examples.critic
      [0; 1; 2]%nat [0; 1; 2]%nat [0; 1; 2]%nat
      (of_array [7; 7; 7]) (of_array [0; 0; 0]) (of_array [0; 0; 0]) false
    = Ok (target, weights)
    /\ nth 2 (data weights) 0 = (1 / 2) ^ 2.
Proof.
  assert (Hne : data (ImagBehavior.target_value
                        Examples.behaviour_config Examples.heads Examples.critic
                        [0; 1; 2]%nat false) <> [])
    by (simpl; discriminate).
  destruct (compute_target_constant_discount
              Examples.behaviour_config Examples.dynamics Examples.heads
              Examples.critic [0; 1; 2]%nat [0; 1; 2]%nat [0; 1; 2]%nat
              (of_array [7; 7; 7]) (of_array [0; 0; 0]) (of_array [0; 0; 0])
              false eq_refl Hne)
    as (target & weights & Hcall & _ & Hw).
  exists target, weights. split; [exact Hcall |].
  apply (Hw 2%nat). simpl. lia.
Defined.



(* ------------------------------------------------------------------ *)
(** ** ImagBehavior._update_slow_target: further properties *)


Lemma mix_parameters_same_shape (mix : R) (live slow : ImagBehavior.Params) :
  ImagBehavior.same_shape live slow ->
  ImagBehavior.same_shape live (ImagBehavior.mix_parameters mix live slow).
Proof.
  induction 1 as [| s d live slow Hsd _ IH]; simpl; constructor.
  - rewrite zip_with_length by assumption. assumption.
  - exact IH.
Qed.


(** X16. With slow targets disabled a call changes nothing, the counter
    included, however often it is made; with slow targets enabled and a
    period of 0 the call raises ZeroDivisionError. *)
Theorem update_slow_target_edge_cases
    (config : ImagBehavior.Config) (self : ImagBehavior.t) :
  (ImagBehavior.slow_value_target config = false ->
   ImagBehavior.slow_actor_target config = false ->
   forall n, ImagBehavior.update_slow_target_times config n self = Ok self)
  /\ (ImagBehavior.slow_value_target config
      || ImagBehavior.slow_actor_target config = true ->
      ImagBehavior.slow_target_update config = 0%Z ->
      exists msg,
        ImagBehavior._update_slow_target config self
        = Raise (ZeroDivisionError msg)).
Proof.
  split.
  - intros Hv Ha n. induction n as [| n IH]; [reflexivity |].
    simpl. rewrite IH. simpl.
    unfold ImagBehavior._update_slow_target. now rewrite Hv, Ha.
  - intros Hen Hk. unfold ImagBehavior._update_slow_target.
    rewrite Hen, Hk. eexists. reflexivity.
Qed.

Lemma update_slow_target_edge_cases_witness :
  ImagBehavior.update_slow_target_times MoreExamples.behaviour_off 5
                                        Examples.critic = Ok Examples.critic
  /\ exists msg,
       ImagBehavior._update_slow_target MoreExamples.behaviour_period_zero
                                        Examples.critic
       = Raise (ZeroDivisionError msg).
Proof.
  split.
  - apply (proj1 (update_slow_target_edge_cases MoreExamples.behaviour_off
                    Examples.critic)); reflexivity.
  - apply (proj2 (update_slow_target_edge_cases MoreExamples.behaviour_period_zero
                    Examples.critic)); reflexivity.
Defined.

Section SlowTargetBlocks.

Variable config : ImagBehavior.Config.
Hypothesis enabled :
  ImagBehavior.slow_value_target config || ImagBehavior.slow_actor_target config
  = true.
Hypothesis period_pos : (0 < ImagBehavior.slow_target_update config)%Z.

Let k := ImagBehavior.slow_target_update config.
Let mix := ImagBehavior.slow_target_fraction config.



End SlowTargetBlocks.

(** X17. Any number of calls of _update_slow_target leaves the live parameters
    and the stop-gradient flag as they are, counts the calls, and keeps
    the slow parameters of the same sizes as the live ones. *)
Theorem update_slow_target_invariants
    (config : ImagBehavior.Config) (self : ImagBehavior.t) (n : nat) :
  ImagBehavior.slow_value_target config || ImagBehavior.slow_actor_target config
  = true ->
  (0 < ImagBehavior.slow_target_update config)%Z ->
  ImagBehavior.same_shape (ImagBehavior.value self) (ImagBehavior._slow_value self) ->
  exists self',
    ImagBehavior.update_slow_target_times config n self = Ok self'
    /\ ImagBehavior.value self' = ImagBehavior.value self
    /\ ImagBehavior._stop_grad_actor self' = ImagBehavior._stop_grad_actor self
    /\ ImagBehavior._updates self' = (ImagBehavior._updates self + Z.of_nat n)%Z
    /\ ImagBehavior.same_shape (ImagBehavior.value self')
                               (ImagBehavior._slow_value self').
Proof.
  intros Hen Hk Hshape.
  induction n as [| n (self1 & Hrun & Hv & Hg & Hu & Hs)].
  - exists self. simpl. repeat split; try reflexivity; [lia | exact Hshape].
  - eexists. simpl. rewrite Hrun. simpl.
    rewrite (update_slow_target_call config Hen Hk).
    split; [reflexivity |]. simpl.
    split; [exact Hv | split; [exact Hg | split; [lia |]]].
    destruct (_ =? 0)%Z; [| exact Hs].
    now apply mix_parameters_same_shape.
Qed.

Lemma update_slow_target_invariants_witness :
  exists self',
    ImagBehavior.update_slow_target_times Examples.behaviour_config 7
                                          Examples.critic = Ok self'
    /\ ImagBehavior.value self' = [[1; 2]]
    /\ ImagBehavior._updates self' = 7%Z.
Proof.
  assert (Hshape : ImagBehavior.same_shape
                     (ImagBehavior.value Examples.critic)
                     (ImagBehavior._slow_value Examples.critic))
    by (repeat constructor).
  assert (Hk : (0 < ImagBehavior.slow_target_update Examples.behaviour_config)%Z)
    by (simpl; lia).
  destruct (update_slow_target_invariants Examples.behaviour_config
              Examples.critic 7 eq_refl Hk Hshape)
    as (self' & Hrun & Hv & _ & Hu & _).
  exists self'. auto.
Defined.

Section SlowTargetContraction.

Variable config : ImagBehavior.Config.
Hypothesis enabled :
  ImagBehavior.slow_value_target config || ImagBehavior.slow_actor_target config
  = true.
Hypothesis period_pos : (0 < ImagBehavior.slow_target_update config)%Z.
Variable self : ImagBehavior.t.
Hypothesis shape :
  ImagBehavior.same_shape (ImagBehavior.value self) (ImagBehavior._slow_value self).
Hypothesis aligned :
  (ImagBehavior._updates self mod ImagBehavior.slow_target_update config = 0)%Z.

Let k := ImagBehavior.slow_target_update config.
Let mix := ImagBehavior.slow_target_fraction config.


End SlowTargetContraction.



(* ------------------------------------------------------------------ *)
(** ** ImagBehavior._compute_actor_loss *)

Lemma mean_data (x y : Tensor) : data x = data y -> mean x = mean y.
Proof. unfold mean. now intros ->. Qed.

Lemma zip_with_map_r (f : R -> R -> R) (g : R -> R) (l1 l2 : list R) :
  zip_with f l1 (map g l2) = zip_with (fun a b => f a (g b)) l1 l2.
Proof.
  revert l2. induction l1 as [| a l1 IH]; intros [| b l2]; simpl;
    try reflexivity.
  now rewrite IH.
Qed.

Lemma zip_with_length_params (f g : R -> R -> R) (l1 l2 : list R) :
  length (zip_with f l1 l2) = length (zip_with g l1 l2).
Proof.
  revert l2. induction l1 as [| a l1 IH]; intros [| b l2]; simpl;
    try reflexivity.
  now rewrite IH.
Qed.

Lemma sum_zip_with_scaled (d : R) (l1 l2 : list R) :
  sum (zip_with (fun a b => a * (b / d)) l1 l2)
  = sum (zip_with Rmult l1 l2) / d.
Proof.
  revert l2. induction l1 as [| a l1 IH]; intros [| b l2]; simpl zip_with;
    try (rewrite sum_nil; unfold Rdiv; ring).
  rewrite !sum_cons, IH. unfold Rdiv. ring.
Qed.

Lemma zip_with_add_first (l1 l2 : list R) :
  (length l1 <= length l2)%nat ->
  zip_with Rplus (map (Rmult 1) l1) (map (Rmult (1 - 1)) l2) = l1.
Proof.
  revert l2. induction l1 as [| a l1 IH]; intros [| b l2] H; simpl in *;
    try reflexivity; try lia.
  rewrite IH by lia. f_equal. lra.
Qed.

Lemma zip_with_add_second (l1 l2 : list R) :
  (length l2 <= length l1)%nat ->
  zip_with Rplus (map (Rmult 0) l1) (map (Rmult (1 - 0)) l2) = l2.
Proof.
  revert l2. induction l1 as [| a l1 IH]; intros [| b l2] H; simpl in *;
    try reflexivity; try lia.
  rewrite IH by lia. f_equal. lra.
Qed.

Lemma zip_with_length_min (f : R -> R -> R) (l1 l2 : list R) :
  length (zip_with f l1 l2) = Nat.min (length l1) (length l2).
Proof.
  revert l2. induction l1 as [| a l1 IH]; intros [| b l2]; simpl;
    try reflexivity.
  now rewrite IH.
Qed.

Lemma removelast_length_pred (l : list R) :
  length (removelast l) = (length l - 1)%nat.
Proof.
  destruct l as [| a l]; [reflexivity |].
  rewrite (removelast_length (a :: l) (length l)) by reflexivity.
  simpl. lia.
Qed.

Lemma entropy_bonus_data (c1 c2 : ActorLoss.Config)
    (actor_ent state_ent at1 at2 : Tensor) (m1 m2 : list (string * R)) :
  ActorLoss.behaviour c1 = ActorLoss.behaviour c2 ->
  data at1 = data at2 ->
  data (fst (ActorLoss.entropy_bonus c1 actor_ent state_ent (at1, m1)))
  = data (fst (ActorLoss.entropy_bonus c2 actor_ent state_ent (at2, m2))).
Proof.
  intros Hb Hd. unfold ActorLoss.entropy_bonus. rewrite Hb.
  destruct (negb _ && _); destruct (negb _ && _); cbn [fst data add tmap2];
    now rewrite Hd.
Qed.

(** Two option records that agree on everything but the gradient mode, and
    whose modes select actor targets with the same entries, lead to the
    same reward EMA and the same loss. *)
Lemma actor_loss_same_target {State Feat Action Rng : Type}
    (c1 c2 : ActorLoss.Config)
    (dynamics : ImagBehavior.Dynamics State Feat Action Rng)
    (heads : ImagBehavior.Heads Feat) (actor : ActorLoss.Actor Feat Action)
    (self : ImagBehavior.t) (reward_ema : RewardEMA.t)
    (imag_feat : list Feat) (imag_state : list State)
    (imag_action : list Action)
    (target actor_ent state_ent weights : Tensor) :
  ActorLoss.behaviour c1 = ActorLoss.behaviour c2 ->
  ActorLoss.reward_EMA c1 = ActorLoss.reward_EMA c2 ->
  (forall inp t' ms1 ms2,
      length (data t') = length (data target) ->
      exists at1 m1 at2 m2,
        ActorLoss.gradient_target c1 heads actor self inp imag_feat imag_action
                                  t' ms1 = Ok (at1, m1)
        /\ ActorLoss.gradient_target c2 heads actor self inp imag_feat
                                     imag_action t' ms2 = Ok (at2, m2)
        /\ (inp = (if ImagBehavior._stop_grad_actor self
                   then map (ImagBehavior.detach_feat dynamics) imag_feat
                   else imag_feat) ->
            data at1 = data at2)) ->
  let r1 := ActorLoss._compute_actor_loss c1 dynamics heads actor self reward_ema
              imag_feat imag_state imag_action target actor_ent state_ent weights in
  let r2 := ActorLoss._compute_actor_loss c2 dynamics heads actor self reward_ema
              imag_feat imag_state imag_action target actor_ent state_ent weights in
  fst r1 = fst r2
  /\ match snd r1, snd r2 with
     | Ok (l1, _), Ok (l2, _) => l1 = l2
     | Raise e1, Raise e2 => e1 = e2
     | _, _ => False
     end.
Proof.
  intros Hb He Hg r1 r2. unfold r1, r2, ActorLoss._compute_actor_loss.
  rewrite He.
  set (inp := if ImagBehavior._stop_grad_actor self
              then map (ImagBehavior.detach_feat dynamics) imag_feat
              else imag_feat).
  assert (Hcall : exists res,
             (if ActorLoss.reward_EMA c2
              then RewardEMA.__call__ reward_ema target
              else Ok (reward_ema, target)) = res
             /\ match res with
                | Ok (_, t') => length (data t') = length (data target)
                | Raise _ => True
                end).
  { eexists. split; [reflexivity |].
    destruct (ActorLoss.reward_EMA c2); [| reflexivity].
    unfold RewardEMA.__call__.
    destruct (RewardEMA.spread reward_ema target); cbn [bind]; [| exact I].
    simpl. apply length_map. }
  destruct Hcall as (res & -> & Hlen).
  destruct res as [[ema' t'] | e]; [| split; reflexivity].
  set (ms := if ActorLoss.reward_EMA c2
             then [("EMA_scale", RewardEMA.scale ema')] else []).
  destruct (Hg inp t' ms ms Hlen) as (at1 & m1 & at2 & m2 & -> & -> & Hd).
  specialize (Hd eq_refl).
  pose proof (entropy_bonus_data c1 c2 (ActorLoss.entropy actor inp) state_ent
                at1 at2 m1 m2 Hb Hd) as Hbonus.
  destruct (ActorLoss.entropy_bonus c1 _ state_ent (at1, m1)) as [t1 n1].
  destruct (ActorLoss.entropy_bonus c2 _ state_ent (at2, m2)) as [t2 n2].
  cbn [fst snd] in *. split; [reflexivity |].
  f_equal. apply mean_data. cbn [data tmap2]. now rewrite Hbonus.
Qed.

(** X19. A gradient mode other than "dynamics", "reinforce" and "both" makes
    _compute_actor_loss raise NotImplementedError with the configured name
    as its message; when the reward EMA is enabled it has been updated
    with the target by then. *)
Theorem actor_loss_unknown_gradient_mode {State Feat Action Rng : Type}
    (config : ActorLoss.Config)
    (dynamics : ImagBehavior.Dynamics State Feat Action Rng)
    (heads : ImagBehavior.Heads Feat) (actor : ActorLoss.Actor Feat Action)
    (self : ImagBehavior.t) (reward_ema : RewardEMA.t)
    (imag_feat : list Feat) (imag_state : list State)
    (imag_action : list Action)
    (target actor_ent state_ent weights : Tensor) :
  ActorLoss.imag_gradient config <> "dynamics" ->
  ActorLoss.imag_gradient config <> "reinforce" ->
  ActorLoss.imag_gradient config <> "both" ->
  (ActorLoss.reward_EMA config = true -> data target <> []) ->
  let r := ActorLoss._compute_actor_loss config dynamics heads actor self
             reward_ema imag_feat imag_state imag_action target actor_ent
             state_ent weights in
  snd r = Raise (NotImplementedError (ActorLoss.imag_gradient config))
  /\ (ActorLoss.reward_EMA config = false -> fst r = reward_ema)
  /\ (ActorLoss.reward_EMA config = true ->
      exists y, RewardEMA.__call__ reward_ema target = Ok (fst r, y)).
Proof.
  intros Hd Hr Hb Hne r.
  assert (Hmode : forall inp t ms,
             ActorLoss.gradient_target config heads actor self inp imag_feat
                                       imag_action t ms
             = Raise (NotImplementedError (ActorLoss.imag_gradient config))).
  { intros inp t ms. unfold ActorLoss.gradient_target.
    destruct (String.eqb_spec (ActorLoss.imag_gradient config) "dynamics");
      [contradiction |].
    destruct (String.eqb_spec (ActorLoss.imag_gradient config) "reinforce");
      [contradiction |].
    destruct (String.eqb_spec (ActorLoss.imag_gradient config) "both");
      [contradiction | reflexivity]. }
  unfold r, ActorLoss._compute_actor_loss.
  destruct (ActorLoss.reward_EMA config) eqn:Hema.
  - destruct (reward_ema_spread_nonempty reward_ema target (Hne eq_refl))
      as (q0 & q1 & _ & _ & Hsp).
    rewrite (reward_ema_call_spread _ _ _ Hsp), Hmode. cbn [fst snd].
    split; [reflexivity | split; [discriminate |]].
    intros _. eexists. reflexivity.
  - rewrite Hmode. cbn [fst snd].
    split; [reflexivity | split; [reflexivity | discriminate]].
Qed.

Lemma actor_loss_unknown_gradient_mode_witness :
  snd (ActorLoss._compute_actor_loss
         (MoreExamples.loss_config "policy" 0) Examples.dynamics Examples.heads
         MoreExamples.actor Examples.critic
         (RewardEMA.__init__ RewardEMA.default_alpha)
         [0; 1; 2]%nat [0; 1; 2]%nat [0; 1; 2]%nat
         (of_array [7; 7]) (of_array [0; 0; 0]) (of_array [0; 0; 0])
         (of_array [1; 1; 1]))
  = Raise (NotImplementedError "policy").
Proof.
  apply (actor_loss_unknown_gradient_mode
           (MoreExamples.loss_config "policy" 0) Examples.dynamics Examples.heads
           MoreExamples.actor Examples.critic
           (RewardEMA.__init__ RewardEMA.default_alpha)
           [0; 1; 2]%nat [0; 1; 2]%nat [0; 1; 2]%nat
           (of_array [7; 7]) (of_array [0; 0; 0]) (of_array [0; 0; 0])
           (of_array [1; 1; 1])).
  - simpl. intros H. discriminate H.
  - simpl. intros H. discriminate H.
  - simpl. intros H. discriminate H.
  - intros _. simpl. discriminate.
Defined.

(** X20. The mode "both" interpolates between the other two: with the mixing
    coefficient 1 it gives the loss of "dynamics", with the coefficient 0
    the loss of "reinforce" (and the same reward EMA), for a target with
    one entry per step but the last. *)
Theorem actor_loss_both_endpoints {State Feat Action Rng : Type}
    (base : ImagBehavior.Config) (ema : bool) (mix : R)
    (dynamics : ImagBehavior.Dynamics State Feat Action Rng)
    (heads : ImagBehavior.Heads Feat) (actor : ActorLoss.Actor Feat Action)
    (self : ImagBehavior.t) (reward_ema : RewardEMA.t)
    (imag_feat : list Feat) (imag_state : list State)
    (imag_action : list Action)
    (target actor_ent state_ent weights : Tensor) :
  let inp :=
    if ImagBehavior._stop_grad_actor self
    then map (ImagBehavior.detach_feat dynamics) imag_feat
    else imag_feat in
  length (data (ActorLoss.log_prob actor inp imag_action))
  = S (length (data target)) ->
  length (data (ImagBehavior.value_mode heads (ImagBehavior.value self)
                  (removelast imag_feat)))
  = length (data target) ->
  let loss mode m :=
    ActorLoss._compute_actor_loss
      {| ActorLoss.behaviour := base;
         ActorLoss.reward_EMA := ema;
         ActorLoss.imag_gradient := mode;
         ActorLoss.imag_gradient_mix := m |}
      dynamics heads actor self reward_ema imag_feat imag_state imag_action
      target actor_ent state_ent weights in
  (fst (loss "both" 1) = fst (loss "dynamics" mix)
   /\ match snd (loss "both" 1), snd (loss "dynamics" mix) with
      | Ok (l1, _), Ok (l2, _) => l1 = l2
      | Raise e1, Raise e2 => e1 = e2
      | _, _ => False
      end)
  /\ (fst (loss "both" 0) = fst (loss "reinforce" mix)
      /\ match snd (loss "both" 0), snd (loss "reinforce" mix) with
         | Ok (l1, _), Ok (l2, _) => l1 = l2
         | Raise e1, Raise e2 => e1 = e2
         | _, _ => False
         end).
Proof.
  intros inp Hlp Hval loss. split.
  - unfold loss. apply actor_loss_same_target; try reflexivity.
    intros inp' t' ms1 ms2 Hlen. unfold ActorLoss.gradient_target.
    cbn [ActorLoss.imag_gradient ActorLoss.imag_gradient_mix
         String.eqb Ascii.eqb Bool.eqb].
    do 4 eexists. split; [reflexivity | split; [reflexivity |]].
    intros ->. fold inp. cbn [data add tmap2 scale_by tmap].
    apply zip_with_add_first.
    unfold ActorLoss.reinforce_target. cbn [data tmap2 detach drop_last].
    rewrite !zip_with_length_min, removelast_length_pred, Hlp, Hval, Hlen. lia.
  - unfold loss. apply actor_loss_same_target; try reflexivity.
    intros inp' t' ms1 ms2 Hlen. unfold ActorLoss.gradient_target.
    cbn [ActorLoss.imag_gradient ActorLoss.imag_gradient_mix
         String.eqb Ascii.eqb Bool.eqb].
    do 4 eexists. split; [reflexivity | split; [reflexivity |]].
    intros ->. fold inp. cbn [data add tmap2 scale_by tmap].
    apply zip_with_add_second.
    unfold ActorLoss.reinforce_target. cbn [data tmap2 detach drop_last].
    rewrite !zip_with_length_min. lia.
Qed.

Lemma actor_loss_both_endpoints_witness :
  fst (ActorLoss._compute_actor_loss
         (MoreExamples.loss_config "both" 1) Examples.dynamics Examples.heads
         MoreExamples.actor Examples.critic
         (RewardEMA.__init__ RewardEMA.default_alpha)
         [0; 1; 2]%nat [0; 1; 2]%nat [0; 1; 2]%nat
         (of_array [7; 7]) (of_array [0; 0; 0]) (of_array [0; 0; 0])
         (of_array [1; 1; 1]))
  = fst (ActorLoss._compute_actor_loss
           (MoreExamples.loss_config "dynamics" 0) Examples.dynamics
           Examples.heads MoreExamples.actor Examples.critic
           (RewardEMA.__init__ RewardEMA.default_alpha)
           [0; 1; 2]%nat [0; 1; 2]%nat [0; 1; 2]%nat
           (of_array [7; 7]) (of_array [0; 0; 0]) (of_array [0; 0; 0])
           (of_array [1; 1; 1])).
Proof.
  exact (proj1 (proj1 (actor_loss_both_endpoints
                         Examples.behaviour_config true 0 Examples.dynamics
                         Examples.heads MoreExamples.actor Examples.critic
                         (RewardEMA.__init__ RewardEMA.default_alpha)
                         [0; 1; 2]%nat [0; 1; 2]%nat [0; 1; 2]%nat
                         (of_array [7; 7]) (of_array [0; 0; 0])
                         (of_array [0; 0; 0]) (of_array [1; 1; 1])
                         eq_refl eq_refl))).
Defined.

(** X21. In the mode "dynamics", with the entropy folded into the return
    (future_entropy), enabling the reward EMA divides the actor loss by
    the updated scale clipped below at 1: the normaliser changes the size
    of the loss, never its sign, and never makes it larger. *)
Theorem actor_loss_ema_rescales {State Feat Action Rng : Type}
    (base : ImagBehavior.Config) (mix : R)
    (dynamics : ImagBehavior.Dynamics State Feat Action Rng)
    (heads : ImagBehavior.Heads Feat) (actor : ActorLoss.Actor Feat Action)
    (self : ImagBehavior.t) (reward_ema : RewardEMA.t)
    (imag_feat : list Feat) (imag_state : list State)
    (imag_action : list Action)
    (target actor_ent state_ent weights : Tensor) :
  ImagBehavior.future_entropy base = true ->
  data target <> [] ->
  let loss ema :=
    ActorLoss._compute_actor_loss
      {| ActorLoss.behaviour := base;
         ActorLoss.reward_EMA := ema;
         ActorLoss.imag_gradient := "dynamics";
         ActorLoss.imag_gradient_mix := mix |}
      dynamics heads actor self reward_ema imag_feat imag_state imag_action
      target actor_ent state_ent weights in
  exists ema' y l m1 m2,
    RewardEMA.__call__ reward_ema target = Ok (ema', y)
    /\ loss false = (reward_ema, Ok (l, m1))
    /\ loss true = (ema', Ok (l / clip_min 1 (RewardEMA.scale ema'), m2))
    /\ Rabs (l / clip_min 1 (RewardEMA.scale ema')) <= Rabs l.
Proof.
  intros Hfe Hne loss.
  destruct (reward_ema_spread_nonempty reward_ema target Hne)
    as (q0 & q1 & _ & _ & Hsp).
  pose proof (reward_ema_call_spread _ _ _ Hsp) as Hcall.
  do 5 eexists. split; [exact Hcall |].
  unfold loss, ActorLoss._compute_actor_loss.
  cbn [ActorLoss.reward_EMA]. rewrite Hcall.
  unfold ActorLoss.gradient_target, ActorLoss.entropy_bonus.
  cbn [ActorLoss.imag_gradient ActorLoss.behaviour String.eqb Ascii.eqb
       Bool.eqb].
  rewrite Hfe. cbn [negb andb].
  split; [reflexivity |]. split; [| apply div_clip_le].
  f_equal. f_equal. f_equal.
  cbn [RewardEMA.scale].
  unfold mean. cbn [data tmap2 tmap].
  rewrite zip_with_map_r, sum_zip_with_scaled.
  rewrite (zip_with_length_params _ Rmult).
  unfold Rdiv. ring.
Qed.

Lemma actor_loss_ema_rescales_witness :
  exists ema' y l m1 m2,
    RewardEMA.__call__ (RewardEMA.__init__ RewardEMA.default_alpha)
                       (of_array [7; 7]) = Ok (ema', y)
    /\ ActorLoss._compute_actor_loss
         {| ActorLoss.behaviour := MoreExamples.behaviour_future;
            ActorLoss.reward_EMA := false;
            ActorLoss.imag_gradient := "dynamics";
            ActorLoss.imag_gradient_mix := 0 |}
         Examples.dynamics Examples.heads MoreExamples.actor Examples.critic
         (RewardEMA.__init__ RewardEMA.default_alpha)
         [0; 1; 2]%nat [0; 1; 2]%nat [0; 1; 2]%nat
         (of_array [7; 7]) (of_array [0; 0; 0]) (of_array [0; 0; 0])
         (of_array [1; 1; 1])
       = (RewardEMA.__init__ RewardEMA.default_alpha, Ok (l, m1))
    /\ ActorLoss._compute_actor_loss
         {| ActorLoss.behaviour := MoreExamples.behaviour_future;
            ActorLoss.reward_EMA := true;
            ActorLoss.imag_gradient := "dynamics";
            ActorLoss.imag_gradient_mix := 0 |}
         Examples.dynamics Examples.heads MoreExamples.actor Examples.critic
         (RewardEMA.__init__ RewardEMA.default_alpha)
         [0; 1; 2]%nat [0; 1; 2]%nat [0; 1; 2]%nat
         (of_array [7; 7]) (of_array [0; 0; 0]) (of_array [0; 0; 0])
         (of_array [1; 1; 1])
       = (ema', Ok (l / clip_min 1 (RewardEMA.scale ema'), m2)).
Proof.
  assert (Hne : data (of_array [7; 7]) <> []) by (simpl; discriminate).
  destruct (actor_loss_ema_rescales
              MoreExamples.behaviour_future 0 Examples.dynamics Examples.heads
              MoreExamples.actor Examples.critic
              (RewardEMA.__init__ RewardEMA.default_alpha)
              [0; 1; 2]%nat [0; 1; 2]%nat [0; 1; 2]%nat
              (of_array [7; 7]) (of_array [0; 0; 0]) (of_array [0; 0; 0])
              (of_array [1; 1; 1]) eq_refl Hne)
    as (ema' & y & l & m1 & m2 & H1 & H2 & H3 & _).
  exists ema', y, l, m1, m2. auto.
Defined.

(* ------------------------------------------------------------------ *)
(** ** The slow critic of a fresh object *)

Lemma mix_parameters_same (mix : R) (p : ImagBehavior.Params) :
  ImagBehavior.mix_parameters mix p p = p.
Proof.
  induction p as [| s p IH]; [reflexivity |].
  simpl. rewrite IH. f_equal.
  induction s as [| a s IHs]; [reflexivity |].
  simpl. rewrite IHs. f_equal. lra.
Qed.

(** The slow critic starts as a copy of the critic, so as long as the live
    parameters are not changed it stays equal to them under any number of
    updates, whatever the mixing fraction. *)
Lemma fresh_slow_critic_equal (config : ImagBehavior.Config)
    (params : ImagBehavior.Params) (stop_grad_actor : bool) (n : nat) :
  ImagBehavior.slow_value_target config || ImagBehavior.slow_actor_target config
  = true ->
  (0 < ImagBehavior.slow_target_update config)%Z ->
  exists self',
    ImagBehavior.update_slow_target_times config n
      (ImagBehavior.__init__ params stop_grad_actor) = Ok self'
    /\ ImagBehavior.value self' = params
    /\ ImagBehavior._slow_value self' = params
    /\ ImagBehavior._updates self' = Z.of_nat n.
Proof.
  intros Hen Hk. induction n as [| n (self1 & Hrun & Hv & Hs & Hu)].
  - eexists. split; [reflexivity |]. repeat split.
  - eexists. simpl. rewrite Hrun. simpl.
    rewrite (update_slow_target_call config Hen Hk).
    split; [reflexivity |]. simpl.
    split; [exact Hv | split; [| lia]].
    destruct (_ =? 0)%Z; [| exact Hs].
    rewrite Hv, Hs. apply mix_parameters_same.
Qed.

Lemma target_reward_no_bonus (config : ImagBehavior.Config)
    (reward actor_ent state_ent : Tensor) :
  ImagBehavior.future_entropy config = false ->
  ImagBehavior.target_reward config reward actor_ent state_ent = reward.
Proof.
  intros H. unfold ImagBehavior.target_reward. now rewrite H.
Qed.

Lemma target_reward_actor_bonus (config : ImagBehavior.Config)
    (reward actor_ent state_ent : Tensor) :
  ImagBehavior.future_entropy config = true ->
  0 < ImagBehavior.actor_entropy config ->
  ImagBehavior.actor_state_entropy config <= 0 ->
  ImagBehavior.target_reward config reward actor_ent state_ent
  = add reward (scale_by (ImagBehavior.actor_entropy config) actor_ent).
Proof.
  intros Hf Hc Hs. unfold ImagBehavior.target_reward. rewrite Hf.
  destruct (Rlt_dec 0 (ImagBehavior.actor_entropy config)); [| contradiction].
  destruct (Rlt_dec 0 (ImagBehavior.actor_state_entropy config)); [lra |].
  reflexivity.
Qed.

(** X22. _compute_target adds the entropy bonuses to the reward tensor of
    its caller in place.  For two calls in a row on the same tensor, as
    _train makes them when slow_value_target and slow_actor_target differ,
    with the slow critic equal to the live one: when future_entropy is off
    the tensor is left as it is and the second call returns what the first
    returned; when future_entropy is on with a positive actor-entropy
    coefficient c (and no state-entropy bonus) the reward that enters the
    recursion of the second call is reward + 2 * c * actor_ent, the bonus
    added twice. *)
Theorem compute_target_repeated_call {State Feat Action Rng : Type}
    (config : ImagBehavior.Config)
    (dynamics : ImagBehavior.Dynamics State Feat Action Rng)
    (heads : ImagBehavior.Heads Feat)
    (self : ImagBehavior.t) (imag_feat : list Feat)
    (imag_state : list State) (imag_action : list Action)
    (reward actor_ent state_ent : Tensor) (slow1 slow2 : bool) :
  ImagBehavior._slow_value self = ImagBehavior.value self ->
  let first :=
    InPlace._compute_target config dynamics heads self imag_feat imag_state
                            imag_action reward actor_ent state_ent slow1 in
  let second :=
    InPlace._compute_target config dynamics heads self imag_feat imag_state
                            imag_action (fst first) actor_ent state_ent slow2 in
  let c := ImagBehavior.actor_entropy config in
  (ImagBehavior.future_entropy config = false ->
   fst first = reward /\ fst second = reward /\ snd second = snd first)
  /\ (ImagBehavior.future_entropy config = true ->
      0 < c ->
      ImagBehavior.actor_state_entropy config <= 0 ->
      length (data actor_ent) = length (data reward) ->
      (forall t : nat, (t < length (data reward))%nat ->
         nth t (data (fst first)) 0
         = nth t (data reward) 0 + c * nth t (data actor_ent) 0
         /\ nth t (data (fst second)) 0
            = nth t (data reward) 0 + 2 * c * nth t (data actor_ent) 0)
      /\ (data (ImagBehavior.target_value config heads self imag_feat slow2)
          <> [] ->
          exists weights,
            snd second
            = Ok (Tools.lambda_return
                    (removelast (data (fst second)))
                    (removelast
                       (data (ImagBehavior.target_value config heads self
                                imag_feat slow2)))
                    (removelast
                       (data (ImagBehavior.target_discount config dynamics
                                heads imag_state (fst first))))
                    (last (data (ImagBehavior.target_value config heads self
                                   imag_feat slow2)) 0)
                    (ImagBehavior.discount_lambda config),
                  weights))).
Proof.
  intros Hslow first second c. split.
  - intros Hf. unfold second, first, InPlace._compute_target. cbn [fst snd].
    rewrite !(target_reward_no_bonus config _ _ _ Hf).
    split; [reflexivity | split; [reflexivity |]].
    unfold ImagBehavior._compute_target, ImagBehavior.target_value.
    rewrite Hslow. destruct slow1, slow2; reflexivity.
  - intros Hf Hc Hs Hlen.
    assert (Hfirst : fst first = add reward (scale_by c actor_ent)).
    { unfold first, InPlace._compute_target. cbn [fst].
      now apply target_reward_actor_bonus. }
    assert (Hsecond : fst second
                      = add (add reward (scale_by c actor_ent))
                            (scale_by c actor_ent)).
    { unfold second, InPlace._compute_target. cbn [fst].
      rewrite Hfirst. now apply target_reward_actor_bonus. }
    assert (Hlc : length (map (Rmult c) (data actor_ent)) = length (data reward))
      by now rewrite length_map.
    split.
    + intros t Ht. rewrite Hfirst, Hsecond.
      cbn [data add tmap2 scale_by tmap].
      assert (H1 : nth t (zip_with Rplus (data reward)
                            (map (Rmult c) (data actor_ent))) 0
                   = nth t (data reward) 0 + c * nth t (data actor_ent) 0).
      { rewrite zip_with_nth by (rewrite ?Hlc; auto).
        rewrite nth_map_zero by lra. reflexivity. }
      split; [exact H1 |].
      rewrite zip_with_nth.
      * rewrite H1, nth_map_zero by lra. lra.
      * rewrite zip_with_length by (now rewrite Hlc). reflexivity.
      * now rewrite Hlc.
    + intros Hne. eexists.
      unfold second at 1, InPlace._compute_target. cbn [snd].
      rewrite (compute_target_returns config dynamics heads self imag_feat
                 imag_state imag_action (fst first) actor_ent state_ent slow2 Hne).
      reflexivity.
Qed.

Lemma compute_target_repeated_call_witness :
  nth 0 (data (fst (InPlace._compute_target
                      MoreExamples.behaviour_future Examples.dynamics
                      Examples.heads (ImagBehavior.__init__ [[1; 2]] true)
                      [0; 1]%nat [0; 1]%nat [0; 1]%nat
                      (fst (InPlace._compute_target
                              MoreExamples.behaviour_future Examples.dynamics
                              Examples.heads
                              (ImagBehavior.__init__ [[1; 2]] true)
                              [0; 1]%nat [0; 1]%nat [0; 1]%nat
                              (of_array [7; 7]) (of_array [10; 10])
                              (of_array [0; 0]) false))
                      (of_array [10; 10]) (of_array [0; 0]) true))) 0
  = 7 + 2 * (1 / 10) * 10.
Proof.
  destruct (compute_target_repeated_call
              MoreExamples.behaviour_future Examples.dynamics Examples.heads
              (ImagBehavior.__init__ [[1; 2]] true)
              [0; 1]%nat [0; 1]%nat [0; 1]%nat
              (of_array [7; 7]) (of_array [10; 10]) (of_array [0; 0])
              false true eq_refl) as [_ Hbonus].
  assert (Hc : 0 < ImagBehavior.actor_entropy MoreExamples.behaviour_future)
    by (simpl; lra).
  assert (Hs : ImagBehavior.actor_state_entropy MoreExamples.behaviour_future <= 0)
    by (simpl; lra).
  destruct (Hbonus eq_refl Hc Hs eq_refl) as [Hnth _].
  assert (Ht : (0 < length (data (of_array [7%R; 7%R])))%nat) by (simpl; lia).
  exact (proj2 (Hnth 0%nat Ht)).
Defined.

(* ------------------------------------------------------------------ *)
(** ** The target over an imagined rollout *)

Lemma imagine_lengths {State Feat Action Rng : Type}
    (config : ImagBehavior.Config)
    (dynamics : ImagBehavior.Dynamics State Feat Action Rng)
    (self : ImagBehavior.t) (start : State)
    (policy : Feat -> ImagBehavior.ActionDist Action Rng)
    (horizon : nat) (repeats : option Z) (g g' : Rng)
    (feats : list Feat) (states : list State) (actions : list Action) :
  (1 <= horizon)%nat ->
  ImagBehavior._imagine config dynamics self start policy horizon repeats g
  = Ok ((feats, states, actions), g') ->
  length feats = horizon /\ length states = horizon /\ length actions = horizon.
Proof.
  intros Hh. unfold ImagBehavior._imagine.
  destruct (truthy repeats); [discriminate |].
  destruct (Tools.static_scan _ _ _ g) as [outputs g1] eqn:Hscan.
  intros Heq. injection Heq as <- <- <- _.
  destruct (static_scan_step config dynamics self policy _ _ _ _ _ _ _ Hscan)
    as [Hlen _].
  rewrite length_seq in Hlen.
  rewrite removelast_cons_length, !length_map, Hlen.
  repeat split. lia.
Qed.

(** C2 (amended). For the rollout that _imagine returns for a horizon
    h >= 1, with one reward, value and discount per rollout entry, the
    target of _compute_target has h - 1 entries and satisfies the backward
    recursion return[t] = reward[t] + discount[t] * ((1 - lambda) *
    value[t+1] + lambda * return[t+1]) for t < h - 1, where return[h-1] is
    the bootstrap value value[h-1].  For h = 1 the target is empty; for
    h = 2 its single entry is reward[0] + discount[0] * bootstrap. *)
Theorem compute_target_over_rollout {State Feat Action Rng : Type}
    (config : ImagBehavior.Config)
    (dynamics : ImagBehavior.Dynamics State Feat Action Rng)
    (heads : ImagBehavior.Heads Feat)
    (self : ImagBehavior.t) (start : State)
    (policy : Feat -> ImagBehavior.ActionDist Action Rng)
    (horizon : nat) (repeats : option Z) (g g' : Rng)
    (imag_feat : list Feat) (imag_state : list State)
    (imag_action : list Action)
    (reward actor_ent state_ent : Tensor) (slow : bool) :
  (1 <= horizon)%nat ->
  ImagBehavior._imagine config dynamics self start policy horizon repeats g
  = Ok ((imag_feat, imag_state, imag_action), g') ->
  let reward' :=
    data (ImagBehavior.target_reward config reward actor_ent state_ent) in
  let value := data (ImagBehavior.target_value config heads self imag_feat slow) in
  let discount :=
    data (ImagBehavior.target_discount config dynamics heads imag_state reward) in
  let lam := ImagBehavior.discount_lambda config in
  let bootstrap := nth (horizon - 1) value 0 in
  length reward' = length imag_feat ->
  length value = length imag_feat ->
  length discount = length imag_feat ->
  exists target weights,
    ImagBehavior._compute_target config dynamics heads self imag_feat imag_state
                                 imag_action reward actor_ent state_ent slow
    = Ok (target, weights)
    /\ length target = (horizon - 1)%nat
    /\ (forall t : nat, (t < horizon - 1)%nat ->
          nth t target 0
          = nth t reward' 0
            + nth t discount 0
              * ((1 - lam) * nth (S t) value 0
                 + lam * nth (S t) (target ++ [bootstrap]) 0))
    /\ (horizon = 1%nat -> target = [])
    /\ (horizon = 2%nat ->
        target = [nth 0 reward' 0 + nth 0 discount 0 * bootstrap]).
Proof.
  intros Hh Himag reward' value discount lam bootstrap Hr Hv Hd.
  destruct (imagine_lengths config dynamics self start policy horizon repeats
              g g' imag_feat imag_state imag_action Hh Himag) as [Hf _].
  assert (HS : S (horizon - 1) = horizon) by lia.
  rewrite Hf, <- HS in Hr, Hv, Hd.
  destruct (compute_target_lambda_return config dynamics heads self imag_feat
              imag_state imag_action reward actor_ent state_ent slow
              (horizon - 1) Hr Hv Hd)
    as (target & weights & Hcall & Hlen & Hrec & Hone).
  exists target, weights.
  split; [exact Hcall | split; [exact Hlen | split; [exact Hrec | split]]].
  - intros H1. rewrite H1 in Hlen. simpl in Hlen.
    destruct target; [reflexivity | discriminate].
  - intros H2. unfold bootstrap. rewrite H2 in *. simpl.
    apply Hone. reflexivity.
Qed.

Lemma compute_target_over_rollout_witness :
  exists target weights,
    ImagBehavior._compute_target
      Examples.behaviour_config Examples.dynamics Examples.heads Examples.critic
      [5; 11]%nat [5; 11]%nat [5; 13]%nat
      (of_array [7; 7]) (of_array [0; 0]) (of_array [0; 0]) false
    = Ok (target, weights)
    /\ length target = 1%nat.
Proof.
  assert (Hh : (1 <= 2)%nat) by lia.
  destruct (compute_target_over_rollout
              Examples.behaviour_config Examples.dynamics Examples.heads
              Examples.critic 5%nat Examples.policy 2 None 0%nat 4%nat
              [5; 11]%nat [5; 11]%nat [5; 13]%nat
              (of_array [7; 7]) (of_array [0; 0]) (of_array [0; 0]) false
              Hh eq_refl eq_refl eq_refl eq_refl)
    as (target & weights & Hcall & Hlen & _).
  exists target, weights. split; [exact Hcall | exact Hlen].
Defined.

(** C2, as stated, fails: for the horizon 1 the rollout has one entry, all
    of it is the bootstrap step, and the target has no entry at all. *)
Lemma compute_target_horizon_one_empty :
  ImagBehavior._imagine Examples.behaviour_config Examples.dynamics
                        Examples.critic 5%nat Examples.policy 1 None 0%nat
  = Ok (([5%nat], [5%nat], [5%nat]), 2%nat)
  /\ (exists weights,
        ImagBehavior._compute_target
          Examples.behaviour_config Examples.dynamics Examples.heads
          Examples.critic [5%nat] [5%nat] [5%nat]
          (of_array [7]) (of_array [0]) (of_array [0]) false
        = Ok ([], weights))
  /\ length (@nil R) <> 1%nat.
Proof.
  split; [reflexivity | split; [| discriminate]].
  eexists. reflexivity.
Qed.
